(** * Turbine selection chart: classification and power estimate

    A shallow embedding of the decision logic of the two entry points of the
    repository, [TurbineChartGUI.py] (desktop form) and
    [Turbine Selection Chart.py] (console script).

    Python's [float] is IEEE 754 binary64; it is modelled by Rocq's primitive
    [float], whose operations are the binary64 operations with
    round-to-nearest-even, so a product written in the order of the source
    rounds exactly where the source rounds.  Integer literals of the source
    that meet a float in an operation ([998], [1000], [120], ...) are written
    as the floats they are converted to; the conversion is exact for all of
    them.

    The calls that only draw (axes, grid, power curves, patches, legend) do
    not feed any value of the chart modelled here and are left out of
    [create_plot] and [main].  What [plot_power_curves] puts on the axes is
    modelled on its own, as a function of the axes limits and of the flow
    rates sampled by [np.logspace]. *)

From Stdlib Require Import ZArith Bool List Floats Lia.
From stdpp Require Import gmap strings pretty.

Set Warnings "-inexact-float".
Local Open Scope string_scope.

(** ** Python values shared by the two files *)

(** The exceptions the modelled statements can raise. *)
Inductive exn := ValueError | IndexError | KeyError.

Inductive result (A : Type) :=
  | Ok (a : A)
  | Raise (e : exn).
Arguments Ok {A} a.
Arguments Raise {A} e.

#[export] Instance result_ret : MRet result := @Ok.
#[export] Instance result_bind : MBind result :=
  fun A B f m => match m with Ok a => f a | Raise e => Raise e end.

(** [d.get(key, default)] on a table keyed by strings; the key may also be
    [None], which is never a key of such a table. *)
Definition dict_get {A} (d : gmap string A) (key : option string) (default : A) : A :=
  match key with
  | None => default
  | Some k => match d !! k with Some v => v | None => default end
  end.

(** [d[key]] on a table keyed by strings. *)
Definition getitem {A} (d : gmap string A) (key : string) : result A :=
  match d !! key with Some v => Ok v | None => Raise KeyError end.

(** [pts[0]]. *)
Definition index0 {A} (pts : list A) : result A :=
  match pts with p :: _ => Ok p | [] => Raise IndexError end.

(** A dict that is iterated keeps its insertion order: it is an association
    list, and [d[k] = v] replaces in place or appends. *)
Fixpoint dict_set {A} (d : list (string * A)) (k : string) (v : A) : list (string * A) :=
  match d with
  | [] => [(k, v)]
  | (k', v') :: d' =>
      if decide (k' = k) then (k, v) :: d' else (k', v') :: dict_set d' k v
  end.

Fixpoint dict_lookup {A} (d : list (string * A)) (k : string) : option A :=
  match d with
  | [] => None
  | (k', v) :: d' => if decide (k' = k) then Some v else dict_lookup d' k
  end.

(** ** The two library interfaces the files call *)

(** [matplotlib.path.Path(vertices)] with no codes: a polyline through the
    vertices. *)
Record Path := { vertices : list (float * float) }.

(** [path.contains_point(point)], the containment test of matplotlib. *)
Class Containment := { contains_point : Path -> float * float -> bool }.

(** The builtin [float(s)] on a string; [None] stands for its [ValueError]. *)
Class Builtins := { float_of_str : string -> option float }.

Definition py_float `{Builtins} (s : string) : result float :=
  match float_of_str s with Some x => Ok x | None => Raise ValueError end.

(** ** What a run shows *)

(** The box drawn next to the point: one line [t: p kW] per suitable turbine
    (white box), or [Approx. Power: p kW] (yellow box). *)
Inductive annotation :=
  | PowerLines (pows : list (string * float))
  | ApproxPower (pow0 : float).

Record chart := {
  point : float * float;
  note : annotation;
  title : string
}.

(** ** What [plot_power_curves] draws, and the numpy it uses *)

(** What [plot_power_curves] puts on the axes, in order: [ax.plot] of a
    dashed curve, [ax.text] of a label. *)
Inductive drawn :=
  | Curve (xs ys : list float)
  | Label (x y : float) (text : string) (rotation : Z) (ha va : string).

(** An integer where a float is expected; exact below 2^53, which covers
    the integers of the files. *)
Definition float_of_int (n : Z) : float :=
  if (n <? 0)%Z then (- of_uint63 (Uint63.of_Z (- n)))%float else of_uint63 (Uint63.of_Z n).

(** [sum(values)]: the additions start from 0, in the order of the values. *)
Definition py_sum (values : list float) : float := foldl PrimFloat.add 0%float values.

(** [array[mask]] of numpy. *)
Fixpoint mask {A} (array : list A) (m : list bool) : list A :=
  match array, m with
  | x :: array', b :: m' => if b then x :: mask array' m' else mask array' m'
  | _, _ => []
  end.

(** [np.any] on an array of booleans, and on an array of floats, where an
    element counts when it is not zero. *)
Definition np_any_bool (m : list bool) : bool := existsb id m.
Definition np_any (array : list float) : bool :=
  existsb (fun x => negb (x =? 0)%float) array.

(** ** [TurbineChartGUI.py] *)
Module TurbineChartGUI.

Definition define_envelopes : list (string * list (float * float)) :=
  [ ("Pelton",
      [ (0.02, 120); (0.02, 1000); (3.5, 1000); (9.8, 350);
        (4.8, 60); (0.038, 60) ]);
    ("Francis",
      [ (0.2, 12); (0.2, 36); (1.2, 350);
        (9.8, 350); (40, 85); (25, 20); (1.6, 7); (0.32, 7) ]);
    ("Kaplan",
      [ (1.2, 2); (0.5, 4.5); (0.5, 7); (1.8, 30);
        (5.9, 48); (35.0, 48); (100.0, 18); (100.0, 2.9); (75.0, 2) ])
  ]%float.

Definition plot_envelopes (envelopes : list (string * list (float * float)))
  : result (list (string * Path)) :=
  let colors : gmap string string :=
    {[ "Pelton" := "#2ca02c"; "Francis" := "#1f77b4"; "Kaplan" := "#ff7f0e" ]} in
  foldl (fun acc '((name, pts) : string * list (float * float)) =>
           paths ← acc;
           p0 ← index0 pts;
           let poly := (pts ++ [p0])%list in
           let path := {| vertices := poly |} in
           _ ← getitem colors name;
           Ok (dict_set paths name path))
        (Ok []) envelopes.

(** On axes with the limits
    [xlim] and [ylim]; [Q_vals] stands for the samples of [np.logspace]. *)
Definition plot_power_curves (xlim ylim : float * float) (Q_vals : list float)
  : list drawn :=
  let rho := 998%float in
  let g := 9.81%float in
  let efficiencies := [("Pelton", 0.915); ("Francis", 0.945); ("Kaplan", 0.94)]%float in
  let avg_eff :=
    (py_sum efficiencies.*2 / float_of_int (Z.of_nat (length efficiencies)))%float in
  let kW_values := [10; 50; 100; 500; 1000; 5000; 10000; 25000]%Z in
  let '(x_min, x_max) := xlim in
  let '(y_min, y_max) := ylim in
  flat_map
    (fun P : Z =>
       let H_vals :=
         (fun q => (float_of_int (P * 1000) / (rho * g * q * avg_eff))%float) <$> Q_vals in
       let valid :=
         zip_with (fun h q => (y_min <=? h)%float && (h <=? y_max)%float
                              && (x_min <=? q)%float && (q <=? x_max)%float)
                  H_vals Q_vals in
       if np_any_bool valid then [Curve (mask Q_vals valid) (mask H_vals valid)] else [])
    kW_values.

Definition calculate_power (Q H : float) (turbine : option string) : float :=
  let rho := 998%float in
  let g := 9.81%float in
  let eff :=
    dict_get {[ "Pelton" := 0.915%float; "Francis" := 0.945%float;
                "Kaplan" := 0.94%float ]} turbine 0.88%float in
  ((rho * g * Q * H * eff) / 1000)%float.

(** [[t for t, p in paths.items() if p.contains_point((Q, H))]] *)
Definition suitable `{Containment} (paths : list (string * Path)) (Q H : float)
  : list string :=
  omap (fun '(t, p) => if contains_point p (Q, H) then Some t else None) paths.

Definition create_plot `{Containment} (Q H : float) : result chart :=
  let envelopes := define_envelopes in
  paths ← plot_envelopes envelopes;
  let suitable := suitable paths Q H in
  match suitable with
  | _ :: _ =>
      let pows :=
        foldl (fun d t => dict_set d t (calculate_power Q H (Some t))) [] suitable in
      Ok {| point := (Q, H);
            note := PowerLines pows;
            title := "Turbine(s): " ++ String.concat ", " suitable |}
  | [] =>
      let pow0 := calculate_power Q H None in
      Ok {| point := (Q, H);
            note := ApproxPower pow0;
            title := "Turbine(s): None" |}
  end.

(** What the [Plot] button leaves on screen: the error dialog, or the
    chart. *)
Inductive shown :=
  | ErrorDialog (caption message : string)
  | Chart (c : chart).

Definition on_plot `{Builtins} `{Containment} (q_entry h_entry : string)
  : result shown :=
  match (Q ← py_float q_entry; H ← py_float h_entry; Ok (Q, H)) with
  | Raise ValueError =>
      Ok (ErrorDialog "Geçersiz giriş" "Lütfen sayısal değerler giriniz.")
  | Raise e => Raise e
  | Ok (Q, H) => c ← create_plot Q H; Ok (Chart c)
  end.

End TurbineChartGUI.

(** ** [Turbine Selection Chart.py] *)
Module TurbineSelectionChart.

Definition define_envelopes : list (string * list (float * float)) :=
  [ ("Pelton",
      [ (0.02, 120); (0.02, 1000); (3.5, 1000); (9.8, 350);
        (4.8, 60); (0.038, 60) ]);
    ("Francis",
      [ (0.2, 12); (0.2, 36); (1.2, 350);
        (9.8, 350); (40, 85); (25, 20); (1.6, 7); (0.32, 7) ]);
    ("Kaplan",
      [ (1.2, 2); (0.5, 4.5); (0.5, 7); (1.8, 30);
        (5.9, 48); (35.0, 48); (100.0, 18); (100.0, 2.9); (75.0, 2) ])
  ]%float.

Definition plot_envelopes (envelopes : list (string * list (float * float)))
  : result (list (string * Path)) :=
  let colors : gmap string string :=
    {[ "Pelton" := "#2ca02c"; "Francis" := "#1f77b4"; "Kaplan" := "#ff7f0e" ]} in
  foldl (fun acc '((name, pts) : string * list (float * float)) =>
           paths ← acc;
           (* close the polygon by appending the first point *)
           p0 ← index0 pts;
           let poly := (pts ++ [p0])%list in
           let path := {| vertices := poly |} in
           _ ← getitem colors name;
           Ok (dict_set paths name path))
        (Ok []) envelopes.

(** The second label strategy of the script: the first sample in view, from
    the left, whose label moved right and up stays below the upper limits. *)
Fixpoint label_from_left (x_min x_max y_min y_max : float) (text : string) (rotation : Z)
    (samples : list (float * float)) : option drawn :=
  match samples with
  | [] => None
  | (q, h) :: rest =>
      if ((x_min <=? q) && (q <=? x_max) && ((y_min <=? h) && (h <=? y_max)))%float then
        let label_Q := (q * 1.1)%float in
        let label_H := (h * 1.1)%float in
        if ((label_Q <? x_max) && (label_H <? y_max))%float then
          Some (Label label_Q label_H text rotation "left" "bottom")
        else label_from_left x_min x_max y_min y_max text rotation rest
      else label_from_left x_min x_max y_min y_max text rotation rest
  end.

(** The third: the same from the right, moved left and down. *)
Fixpoint label_from_right (x_min x_max y_min y_max : float) (text : string) (rotation : Z)
    (samples : list (float * float)) : option drawn :=
  match samples with
  | [] => None
  | (q, h) :: rest =>
      if ((x_min <=? q) && (q <=? x_max) && ((y_min <=? h) && (h <=? y_max)))%float then
        let label_Q := (q * 0.9)%float in
        let label_H := (h * 0.9)%float in
        if ((x_min <? label_Q) && (y_min <? label_H))%float then
          Some (Label label_Q label_H text rotation "right" "top")
        else label_from_right x_min x_max y_min y_max text rotation rest
      else label_from_right x_min x_max y_min y_max text rotation rest
  end.

(** The label placement of the script for one curve: the middle of the
    visible part when it is clear of the edges, else the first strategy
    above that finds a place, else no label. *)
Definition place_label (x_min x_max y_min y_max : float) (P_kW : Z)
    (visible_Q visible_H Q_values H_values : list float) : option drawn :=
  let text := pretty P_kW ++ " kW" in
  let rotation_angle := if (P_kW <=? 100)%Z then (-45)%Z else 45%Z in
  let middle :=
    if (0 <? length visible_Q)%nat then
      let mid_idx := (length visible_Q / 2)%nat in
      match visible_Q !! mid_idx, visible_H !! mid_idx with
      | Some label_Q, Some label_H =>
          if ((x_min * 1.1 <? label_Q) && (label_Q <? x_max * 0.9)
              && (y_min * 1.1 <? label_H) && (label_H <? y_max * 0.9))%float
          then Some (Label label_Q label_H text rotation_angle "center" "bottom")
          else None
      | _, _ => None
      end
    else None in
  match middle with
  | Some l => Some l
  | None =>
      match label_from_left x_min x_max y_min y_max text rotation_angle
              (zip Q_values H_values) with
      | Some l => Some l
      | None =>
          label_from_right x_min x_max y_min y_max text rotation_angle
            (rev (zip Q_values H_values))
      end
  end.

(** On axes with the limits [xlim] and [ylim]; [Q_values] stands for the
    samples of [np.logspace]. *)
Definition plot_power_curves (xlim ylim : float * float) (Q_values : list float)
  : list drawn :=
  let rho := 998%float in
  let g := 9.81%float in
  let efficiencies := [("Pelton", 0.915); ("Francis", 0.945); ("Kaplan", 0.94)]%float in
  let avg_efficiency :=
    (py_sum efficiencies.*2 / float_of_int (Z.of_nat (length efficiencies)))%float in
  let kW_values := [10; 50; 100; 500; 1000; 5000; 10000; 25000]%Z in
  let '(x_min, x_max) := xlim in
  let '(y_min, y_max) := ylim in
  flat_map
    (fun P_kW : Z =>
       let H_values :=
         (fun q => (float_of_int (P_kW * 1000)
                    / (rho * g * q * avg_efficiency))%float) <$> Q_values in
       let valid_indices :=
         (fun h => (y_min <=? h)%float && (h <=? y_max)%float) <$> H_values in
       let in_view :=
         zip_with (fun v q => v && (x_min <=? q)%float && (q <=? x_max)%float)
                  valid_indices Q_values in
       let visible_Q := mask Q_values in_view in
       let visible_H := mask H_values in_view in
       if np_any visible_Q then
         Curve visible_Q visible_H
           :: option_list (place_label x_min x_max y_min y_max P_kW
                             visible_Q visible_H Q_values H_values)
       else [])
    kW_values.

Definition calculate_power (Q H : float) (turbine_type : option string) : float :=
  let rho := 998%float in
  let g := 9.81%float in
  let efficiencies : gmap string float :=
    {[ "Pelton" := 0.915%float; "Francis" := 0.945%float;
       "Kaplan" := 0.94%float ]} in
  let efficiency := dict_get efficiencies turbine_type 0.88%float in
  let P := ((rho * g * Q * H * efficiency) / 1000)%float in
  P.

(** [[name for name, path in paths.items() if path.contains_point((Q, H))]] *)
Definition suitable `{Containment} (paths : list (string * Path)) (Q H : float)
  : list string :=
  omap (fun '(name, path) => if contains_point path (Q, H) then Some name else None)
       paths.

(** [main], with the two lines the user types at the prompts. *)
Definition main `{Builtins} `{Containment} (q_line h_line : string) : result chart :=
  let envelopes := define_envelopes in
  paths ← plot_envelopes envelopes;
  Q ← py_float q_line;
  H ← py_float h_line;
  let suitable := suitable paths Q H in
  match suitable with
  | _ :: _ =>
      let calculated_powers :=
        foldl (fun d turbine_type =>
                 let power := calculate_power Q H (Some turbine_type) in
                 dict_set d turbine_type power)
              [] suitable in
      Ok {| point := (Q, H);
            note := PowerLines calculated_powers;
            title := "Turbine(s): " ++ String.concat ", " suitable |}
  | [] =>
      let power_at_point := calculate_power Q H None in
      Ok {| point := (Q, H);
            note := ApproxPower power_at_point;
            title := "Turbine(s): None" |}
  end.

End TurbineSelectionChart.

(** ** The containment test *)

Section Crossings.
Local Open Scope float_scope.

(** The state of the edge walk: the previous vertex, the current one, on
    which side of the ray the previous vertex lies, and the parity of the
    crossings so far. *)
Record walk := {
  vtx0 : float; vty0 : float;
  vtx1 : float; vty1 : float;
  yflag0 : bool;
  inside_flag : bool
}.

(** One edge [(vtx0, vty0) -> (vtx1, vty1)] against the ray that leaves
    [(tx, ty)] towards increasing x. *)
Definition edge_flag (tx ty : float) (w : walk) : bool * bool :=
  let yflag1 := (ty <=? vty1 w) in
  let hit :=
    negb (eqb (yflag0 w) yflag1) &&
    eqb (((vtx1 w - tx) * (vty0 w - vty1 w)) <=? ((vty1 w - ty) * (vtx0 w - vtx1 w)))
        yflag1 in
  (yflag1, xorb (inside_flag w) hit).

Definition advance (tx ty : float) (w : walk) (v : float * float) : walk :=
  let '(yflag1, inside) := edge_flag tx ty w in
  {| vtx0 := vtx1 w; vty0 := vty1 w;
     vtx1 := fst v; vty1 := snd v;
     yflag0 := yflag1; inside_flag := inside |}.

(** Modelled from the spec: [Path.contains_point] is matplotlib's and is not
    among the sources; the spec calls it standard point-in-polygon
    containment.  This is the crossing-number (even-odd) test matplotlib
    runs for a path without codes, with no transform and radius 0: walk the
    edges in order, return to the first vertex at the end, and flip the
    answer at each edge crossed by the ray from the point towards
    increasing x; a vertex counts as above the ray when its ordinate is at
    least the point's.  A point with a coordinate that is not finite is in
    no path. *)
Definition point_in_path (tx ty : float) (path : Path) : bool :=
  match vertices path with
  | [] => false
  | (sx, sy) :: rest =>
      if is_finite tx && is_finite ty then
        let w0 := {| vtx0 := sx; vty0 := sy; vtx1 := sx; vty1 := sy;
                     yflag0 := (ty <=? sy); inside_flag := false |} in
        let w := advance tx ty (foldl (advance tx ty) w0 rest) (sx, sy) in
        snd (edge_flag tx ty w)
      else false
  end.
End Crossings.

(** Modelled from the spec: the containment test of matplotlib, as
    [point_in_path] above. *)
#[export] Instance matplotlib : Containment :=
  {| contains_point := fun path pt => point_in_path (fst pt) (snd pt) path |}.

(** ** Vocabulary of the properties *)

(** The names of the three envelopes, in the order the files list them. *)
Definition names : list string := ["Pelton"; "Francis"; "Kaplan"].

(** A vertex list closed by connecting its last vertex back to the first. *)
Definition closed_polygon (pts : list (float * float)) : list (float * float) :=
  match pts with
  | [] => []
  | p0 :: _ => (pts ++ [p0])%list
  end.

(** The closed polygon of a named envelope of a table of envelopes. *)
Definition envelope (envelopes : list (string * list (float * float))) (name : string)
  : Path :=
  {| vertices := closed_polygon (default [] (dict_lookup envelopes name)) |}.

(** The point [(Q, H)] lies in the named envelope, by the containment test. *)
Definition inside `{Containment} (envelopes : list (string * list (float * float)))
    (name : string) (Q H : float) : bool :=
  contains_point (envelope envelopes name) (Q, H).

(** The classifier of each file: the paths it builds, then the names it keeps
    for the point. *)
Definition gui_classifier `{Containment} (Q H : float) : result (list string) :=
  paths ← TurbineChartGUI.plot_envelopes TurbineChartGUI.define_envelopes;
  Ok (TurbineChartGUI.suitable paths Q H).

Definition script_classifier `{Containment} (Q H : float) : result (list string) :=
  paths ← TurbineSelectionChart.plot_envelopes TurbineSelectionChart.define_envelopes;
  Ok (TurbineSelectionChart.suitable paths Q H).

(** The chart drawn for a point that no envelope contains. *)
Definition chart_without_turbine (Q H pow0 : float) : chart :=
  {| point := (Q, H); note := ApproxPower pow0; title := "Turbine(s): None" |}.

(** The formula of the power estimate for an efficiency [eta], evaluated in
    binary64 in the order it is written. *)
Definition power_formula (Q H eta : float) : float :=
  ((998 * 9.81 * Q * H * eta) / 1000)%float.

(** [x] is within [tol] of [v]. *)
Definition near (x v tol : float) : bool := (abs (x - v) <=? tol)%float.

(** A [float()] that reads the two strings of the second example and rejects
    everything else; it only serves to run [main] on that example. *)
Definition reads_50_and_1 : Builtins :=
  {| float_of_str := fun s =>
       if decide (s = "50") then Some 50%float
       else if decide (s = "1") then Some 1%float
       else None |}.

(** ** Exact containment

    The containment the specification speaks of, decided without rounding:
    every finite binary64 number is an integer number of units of 2^-1074,
    so the vertices and the point are taken to integers by one common
    scale, which changes no containment, and the polygon tests are
    evaluated in [Z]. *)

Section Exact.
Local Open Scope Z_scope.











End Exact.

(** ** Binary64 rounding, on integers

    The vocabulary in which the rounding of [SpecFloat] (the specification
    of the primitive floats) is shown to be monotone. *)

Section Binary64.
Local Open Scope Z_scope.

(** Sticky halving of the rational [a/b]: twice the floor, plus one when the
    division is inexact. *)
Definition st (a b : Z) : Z := 2 * (a / b) + (if a mod b =? 0 then 0 else 1).

(** Sticky right shift by [n] of a code. *)
Definition ssh (c n : Z) : Z := st c (2 ^ (n + 1)).

(** A mantissa with its round and sticky bits, as one integer. *)
Definition code_of (mrs : shr_record) : Z :=
  4 * shr_m mrs + (if shr_r mrs then 2 else 0) + (if shr_s mrs then 1 else 0).

Definition loc_code (l : location) : Z :=
  match l with
  | loc_Exact => 0
  | loc_Inexact Lt => 1
  | loc_Inexact Eq => 2
  | loc_Inexact Gt => 3
  end.

(** Round to nearest, ties to even, on a code. *)
Definition rne (c : Z) : Z :=
  let q := c / 4 in
  let r := c mod 4 in
  if r =? 3 then q + 1
  else if r =? 2 then (if Z.even q then q else q + 1)
  else q.

(** The exponent of the binary64 values of magnitude [x]. *)
Definition fx (x : Z) : Z := Z.max (x - 53) (-1074).

(** What [binary_round_aux] builds from the rounded mantissa [M] at the
    exponent [T]. *)
Definition finish (s : bool) (M T : Z) : spec_float :=
  match M with
  | Z0 => S754_zero s
  | Zpos p =>
      if M =? 2 ^ 53 then
        if T + 1 <=? 971 then S754_finite s (2 ^ 52)%positive (T + 1) else S754_infinity s
      else
        if T <=? 971 then S754_finite s p T else S754_infinity s
  | Zneg _ => S754_nan
  end.

(** The rank of a magnitude among the binary64 magnitudes. *)
Definition top : Z := 2047 * 2 ^ 52.

Definition rk (x : spec_float) : Z :=
  match x with
  | S754_zero _ => 0
  | S754_finite _ m e => (e + 1074) * 2 ^ 52 + Z.pos m
  | S754_infinity _ => top
  | S754_nan => 0
  end.

Definition sgn (x : spec_float) : bool :=
  match x with
  | S754_zero s | S754_finite s _ _ | S754_infinity s => s
  | S754_nan => false
  end.

Definition srk (x : spec_float) : Z := if sgn x then - rk x else rk x.

(** The shape of a binary64 value that is not NaN. *)
Definition canon (x : spec_float) : Prop :=
  match x with
  | S754_finite _ m e =>
      -1074 <= e <= 971 /\ Z.pos m < 2 ^ 53 /\ (-1074 < e -> 2 ^ 52 <= Z.pos m)
  | S754_nan => False
  | _ => True
  end.

(** [a1/b1 * 2^e1 <= a2/b2 * 2^e2], for positive denominators. *)
Definition vle (a1 b1 e1 a2 b2 e2 : Z) : Prop :=
  a1 * b2 * 2 ^ (e1 - Z.min e1 e2) <= a2 * b1 * 2 ^ (e2 - Z.min e1 e2).

(** The mantissa [m] with the location [l] stands for the rational [a/b]. *)
Definition stands_for (m : Z) (l : location) (a b : Z) : Prop :=
  0 <= a /\ 0 < b /\ m = a / b /\ 4 * m + loc_code l = st (2 * a) b.

Definition set_sign (s : bool) (x : spec_float) : spec_float :=
  match x with
  | S754_zero _ => S754_zero s
  | S754_infinity _ => S754_infinity s
  | S754_finite _ m e => S754_finite s m e
  | S754_nan => S754_nan
  end.

(** An operation that keeps the sign and grows with the magnitude. *)
Record odd_monotone (F : spec_float -> spec_float) : Prop := {
  om_canon : forall x, canon x -> canon (F x);
  om_sgn : forall x, canon x -> sgn (F x) = sgn x;
  om_abs : forall x, canon x -> rk (F x) = rk (F (set_sign false x));
  om_zero : forall x, canon x -> rk x = 0 -> rk (F x) = 0;
  om_mono : forall x y, canon x -> canon y -> sgn x = false -> sgn y = false ->
            rk x <= rk y -> rk (F x) <= rk (F y)
}.

(** The exponent and the scaled numerator that [SFdiv_core_binary] picks for
    the quotient of [m * 2^e] by [md * 2^ed]. *)
Definition div_exp (md : positive) (ed : Z) (m : positive) (e : Z) : Z :=
  Z.min (fx (Zdigits2 (Z.pos m) + e - (Zdigits2 (Z.pos md) + ed))) (e - ed).

Definition div_num (md : positive) (ed : Z) (m : positive) (e : Z) : Z :=
  Z.pos m * 2 ^ (e - ed - div_exp md ed m e).

End Binary64.

(** A positive finite float. *)
Definition positive_finite (c : float) : Prop :=
  exists m e, Prim2SF c = S754_finite false m e.

(** The claim of strict growth, as the specification words it: the power
    grows strictly with Q for every fixed H, and with H for every fixed Q. *)
Definition strictly_increasing (power : float -> float -> option string -> float) : Prop :=
  (forall Q1 Q2 H t, (Q1 <? Q2)%float = true ->
     (power Q1 H t <? power Q2 H t)%float = true) /\
  (forall Q H1 H2 t, (H1 <? H2)%float = true ->
     (power Q H1 t <? power Q H2 t)%float = true).

(** ** The console of the script *)

(** The lines still to be read from the standard input, and the prompts
    written so far. *)
Record console := { stdin : list string; stdout : list string }.

(** How a run ends without a chart: an exception of the program, or the
    [EOFError] of [input] at the end of the input. *)
Inductive halt := Exception (e : exn) | EOFError.

(** A statement that runs on the console. *)
Definition run (A : Type) : Type := console -> console * (A + halt).

#[export] Instance run_ret : MRet run := fun A a c => (c, inl a).
#[export] Instance run_bind : MBind run :=
  fun A B f m c =>
    match m c with
    | (c', inl a) => f a c'
    | (c', inr stop) => (c', inr stop)
    end.

(** A statement that does not touch the console. *)
Definition silent {A} (r : result A) : run A :=
  fun c => (c, match r with Ok a => inl a | Raise e => inr (Exception e) end).

(** [input(prompt)]: write the prompt, then read one line. *)
Definition input (prompt : string) : run string :=
  fun c =>
    let out := (stdout c ++ [prompt])%list in
    match stdin c with
    | [] => ({| stdin := []; stdout := out |}, inr EOFError)
    | line :: rest => ({| stdin := rest; stdout := out |}, inl line)
    end.

(** [main] of [Turbine Selection Chart.py], prompts and reads included.  The
    drawing of the axes and of the power curves, between the envelopes and
    the first prompt, touches neither the console nor the chart shown here. *)
Definition main_on_console `{Builtins} `{Containment} : run chart :=
  let envelopes := TurbineSelectionChart.define_envelopes in
  paths ← silent (TurbineSelectionChart.plot_envelopes envelopes);
  q_line ← input "  Enter flow rate Q (m³/s): ";
  Q ← silent (py_float q_line);
  h_line ← input "  Enter head H (m): ";
  H ← silent (py_float h_line);
  let suitable := TurbineSelectionChart.suitable paths Q H in
  match suitable with
  | _ :: _ =>
      let calculated_powers :=
        foldl (fun d turbine_type =>
                 let power := TurbineSelectionChart.calculate_power Q H (Some turbine_type) in
                 dict_set d turbine_type power)
              [] suitable in
      mret {| point := (Q, H);
              note := PowerLines calculated_powers;
              title := "Turbine(s): " ++ String.concat ", " suitable |}
  | [] =>
      let power_at_point := TurbineSelectionChart.calculate_power Q H None in
      mret {| point := (Q, H);
              note := ApproxPower power_at_point;
              title := "Turbine(s): None" |}
  end.

(** ** Vocabulary of the further properties *)

(** An entry of a table of envelopes that [plot_envelopes] can draw: it has
    a first vertex, and its name has a colour. *)
Definition drawable (entry : string * list (float * float)) : Prop :=
  entry.2 <> [] /\ entry.1 ∈ names.

(** The path [plot_envelopes] builds for an entry. *)
Definition closed_path (entry : string * list (float * float)) : string * Path :=
  (entry.1, {| vertices := closed_polygon entry.2 |}).

(** One turn of the loop of [plot_envelopes]. *)
Definition plot_envelope (acc : result (list (string * Path)))
    (entry : string * list (float * float)) : result (list (string * Path)) :=
  match acc with
  | Raise e => Raise e
  | Ok paths =>
      match entry.2 with
      | [] => Raise IndexError
      | _ :: _ =>
          if decide (entry.1 ∈ names) then Ok (dict_set paths entry.1 (closed_path entry).2)
          else Raise KeyError
      end
  end.

(** The chart for a point and the list of names found for it. *)
Definition chart_for (power : float -> float -> option string -> float)
    (Q H : float) (found : list string) : chart :=
  match found with
  | [] => chart_without_turbine Q H (power Q H None)
  | _ :: _ =>
      {| point := (Q, H);
         note := PowerLines (map (fun t => (t, power Q H (Some t))) found);
         title := "Turbine(s): " ++ String.concat ", " found |}
  end.

(** A float that is zero, positive or [+infinity]; in particular not NaN. *)
Definition not_negative (t : float) : Prop :=
  canon (Prim2SF t) /\ sgn (Prim2SF t) = false.

(** The points a drawn thing occupies on the axes. *)
Definition points (d : drawn) : list (float * float) :=
  match d with
  | Curve xs ys => zip xs ys
  | Label x y _ _ _ _ => [(x, y)]
  end.

Definition is_curve (d : drawn) : bool :=
  match d with Curve _ _ => true | Label _ _ _ _ _ _ => false end.

(** A point within the limits of the axes, ends included. *)
Definition within (xlim ylim : float * float) (p : float * float) : Prop :=
  (xlim.1 <=? p.1)%float = true /\ (p.1 <=? xlim.2)%float = true /\
  (ylim.1 <=? p.2)%float = true /\ (p.2 <=? ylim.2)%float = true.

(** A curve with one head per flow rate and all its points within the
    limits; nothing is asked of a label. *)
Definition well_drawn (xlim ylim : float * float) (d : drawn) : Prop :=
  match d with
  | Curve xs ys => length xs = length ys /\ Forall (within xlim ylim) (zip xs ys)
  | Label _ _ _ _ _ _ => True
  end.

(** * Properties *)

(** ** The efficiency table *)

Section Efficiency.
Local Open Scope float_scope.

Let table : gmap string float :=
  {[ "Pelton" := 0.915; "Francis" := 0.945; "Kaplan" := 0.94 ]}.

Lemma table_known :
  dict_get table (Some "Pelton") 0.88 = 0.915 /\
  dict_get table (Some "Francis") 0.88 = 0.945 /\
  dict_get table (Some "Kaplan") 0.88 = 0.94.
Proof. repeat split; vm_compute; reflexivity. Qed.

Lemma table_unknown (label : string) :
  label ∉ names -> dict_get table (Some label) 0.88 = 0.88.
Proof.
  intros Hout. unfold names in Hout.
  rewrite !not_elem_of_cons in Hout. destruct Hout as (HP & HF & HK & _).
  unfold dict_get, table.
  rewrite !lookup_insert_ne, lookup_singleton_ne by congruence.
  reflexivity.
Qed.
End Efficiency.

(** C1: for every Q and H and each of the labels Pelton, Francis and Kaplan,
    [calculate_power] of either file returns the value of
    [(998 * 9.81 * Q * H * eta) / 1000] with eta = 0.915, 0.945 and 0.94
    respectively.  Being a function of its three arguments, it has no other
    effect. *)
Theorem calculate_power_known_turbine (Q H : float) :
  (TurbineChartGUI.calculate_power Q H (Some "Pelton") = power_formula Q H 0.915 /\
   TurbineChartGUI.calculate_power Q H (Some "Francis") = power_formula Q H 0.945 /\
   TurbineChartGUI.calculate_power Q H (Some "Kaplan") = power_formula Q H 0.94) /\
  (TurbineSelectionChart.calculate_power Q H (Some "Pelton") = power_formula Q H 0.915 /\
   TurbineSelectionChart.calculate_power Q H (Some "Francis") = power_formula Q H 0.945 /\
   TurbineSelectionChart.calculate_power Q H (Some "Kaplan") = power_formula Q H 0.94).
Proof.
  destruct table_known as (HP & HF & HK).
  unfold TurbineChartGUI.calculate_power, TurbineSelectionChart.calculate_power,
    power_formula.
  cbv zeta. rewrite HP, HF, HK. repeat split.
Qed.

(** C2: for every Q and H, when the turbine argument is [None] or a label
    other than Pelton, Francis and Kaplan, [calculate_power] of either file
    uses the default efficiency 0.88. *)
Theorem calculate_power_default (Q H : float) (turbine : option string) :
  (turbine = None \/ exists label, turbine = Some label /\ label ∉ names) ->
  TurbineChartGUI.calculate_power Q H turbine = power_formula Q H 0.88 /\
  TurbineSelectionChart.calculate_power Q H turbine = power_formula Q H 0.88.
Proof.
  intros Hdefault.
  assert (Heff : dict_get {[ "Pelton" := 0.915%float; "Francis" := 0.945%float;
                             "Kaplan" := 0.94%float ]} turbine 0.88%float
                 = 0.88%float).
  { destruct Hdefault as [-> | (label & -> & Hout)].
    - reflexivity.
    - apply table_unknown, Hout. }
  unfold TurbineChartGUI.calculate_power, TurbineSelectionChart.calculate_power,
    power_formula.
  cbv zeta. rewrite Heff. split; reflexivity.
Qed.

Lemma calculate_power_default_witness :
  TurbineChartGUI.calculate_power 50 1 (Some "pelton") = power_formula 50 1 0.88 /\
  TurbineSelectionChart.calculate_power 50 1 (Some "pelton") = power_formula 50 1 0.88.
Proof.
  apply (calculate_power_default 50 1 (Some "pelton")).
  right. exists "pelton". split; [reflexivity | compute_done].
Defined.

(** ** The classifier *)

(** The three paths both files build: each vertex list, closed. *)
Lemma paths_built :
  TurbineChartGUI.plot_envelopes TurbineChartGUI.define_envelopes
  = Ok (map (fun n => (n, envelope TurbineChartGUI.define_envelopes n)) names) /\
  TurbineSelectionChart.plot_envelopes TurbineSelectionChart.define_envelopes
  = Ok (map (fun n => (n, envelope TurbineSelectionChart.define_envelopes n)) names).
Proof. split; vm_compute; reflexivity. Qed.

Section Classifier.
Context {C : Containment}.
Variable envelopes : list (string * list (float * float)).

Let paths := map (fun n => (n, envelope envelopes n)) names.

Lemma suitable_filter (Q H : float) :
  TurbineChartGUI.suitable paths Q H
  = List.filter (fun n => inside envelopes n Q H) names /\
  TurbineSelectionChart.suitable paths Q H
  = List.filter (fun n => inside envelopes n Q H) names.
Proof.
  unfold TurbineChartGUI.suitable, TurbineSelectionChart.suitable, paths, names,
    inside.
  cbn [map omap list_omap List.filter].
  split;
    destruct (contains_point (envelope envelopes "Pelton") (Q, H)),
             (contains_point (envelope envelopes "Francis") (Q, H)),
             (contains_point (envelope envelopes "Kaplan") (Q, H));
    reflexivity.
Qed.


End Classifier.






(** ** No envelope contains the point *)








(** ** The two worked examples *)

(** The first example as the specification words it, with "approximately
    224.1" read as within one unit of the last digit given. *)
Lemma example_pelton_not_224_1 :
  near (TurbineChartGUI.calculate_power 0.05 500 (Some "Pelton")) 224.1 0.1 = false /\
  near (TurbineSelectionChart.calculate_power 0.05 500 (Some "Pelton")) 224.1 0.1 = false /\
  (TurbineChartGUI.calculate_power 0.05 500 (Some "Pelton") <? 224)%float = true.
Proof. repeat split; vm_compute; reflexivity. Qed.

(** C7, amended: at Q = 0.05 and H = 500 the classifier of either file
    returns Pelton alone, and [calculate_power(0.05, 500, 'Pelton')] is the
    value of [998*9.81*0.05*500*0.915/1000], which is 223.95494250000004,
    that is approximately 223.95 kW (224.0 to one decimal). *)
Theorem example_pelton_point :
  @gui_classifier matplotlib 0.05 500 = Ok ["Pelton"] /\
  @script_classifier matplotlib 0.05 500 = Ok ["Pelton"] /\
  TurbineChartGUI.calculate_power 0.05 500 (Some "Pelton")
  = ((998 * 9.81 * 0.05 * 500 * 0.915) / 1000)%float /\
  TurbineSelectionChart.calculate_power 0.05 500 (Some "Pelton")
  = ((998 * 9.81 * 0.05 * 500 * 0.915) / 1000)%float /\
  TurbineChartGUI.calculate_power 0.05 500 (Some "Pelton") = 223.95494250000004%float /\
  near (TurbineChartGUI.calculate_power 0.05 500 (Some "Pelton")) 223.95 0.01 = true /\
  near (TurbineChartGUI.calculate_power 0.05 500 (Some "Pelton")) 224.0 0.1 = true.
Proof. repeat split; vm_compute; reflexivity. Qed.

(** C8: at Q = 50 and H = 1 the classifier of either file returns no name,
    both files draw the chart without a turbine, and the default-efficiency
    power [calculate_power(50, 1)] is the value of [998*9.81*50*1*0.88/1000],
    which is approximately 430.7 kW (within one unit of the last digit). *)
Theorem example_outside_point :
  @gui_classifier matplotlib 50 1 = Ok [] /\
  @script_classifier matplotlib 50 1 = Ok [] /\
  @TurbineChartGUI.create_plot matplotlib 50 1
  = Ok (chart_without_turbine 50 1 (TurbineChartGUI.calculate_power 50 1 None)) /\
  @TurbineSelectionChart.main reads_50_and_1 matplotlib "50" "1"
  = Ok (chart_without_turbine 50 1 (TurbineSelectionChart.calculate_power 50 1 None)) /\
  TurbineChartGUI.calculate_power 50 1 None
  = ((998 * 9.81 * 50 * 1 * 0.88) / 1000)%float /\
  TurbineSelectionChart.calculate_power 50 1 None
  = ((998 * 9.81 * 50 * 1 * 0.88) / 1000)%float /\
  near (TurbineChartGUI.calculate_power 50 1 None) 430.7 0.1 = true /\
  near (TurbineSelectionChart.calculate_power 50 1 None) 430.7 0.1 = true.
Proof. repeat split; vm_compute; reflexivity. Qed.

(** ** Errors and the two entry points *)

(** Building the charts never fails: the envelopes are fixed, not empty, and
    each has a colour. *)
Lemma create_plot_completes {C : Containment} (Q H : float) :
  exists c, TurbineChartGUI.create_plot Q H = Ok c.
Proof.
  destruct paths_built as [Hgui _].
  unfold TurbineChartGUI.create_plot. cbv zeta. rewrite Hgui. cbn [mbind result_bind].
  destruct (TurbineChartGUI.suitable _ Q H); eexists; reflexivity.
Qed.

(** The form is the script with the [ValueError] of a field caught and shown
    in a dialog. *)
Lemma on_plot_main {B : Builtins} {C : Containment} (q h : string) :
  TurbineChartGUI.on_plot q h
  = match TurbineSelectionChart.main q h with
    | Ok c => Ok (TurbineChartGUI.Chart c)
    | Raise ValueError =>
        Ok (TurbineChartGUI.ErrorDialog "Geçersiz giriş" "Lütfen sayısal değerler giriniz.")
    | Raise e => Raise e
    end.
Proof.
  destruct paths_built as [Hgui Hscript].
  unfold TurbineChartGUI.on_plot, TurbineSelectionChart.main, TurbineChartGUI.create_plot,
    py_float.
  cbv zeta. rewrite Hgui, Hscript. cbn [mbind result_bind].
  destruct (float_of_str q) as [Q | ]; cbn [mbind result_bind]; [ | reflexivity].
  destruct (float_of_str h) as [H | ]; cbn [mbind result_bind]; [ | reflexivity].
  change (TurbineSelectionChart.suitable ?p Q H) with (TurbineChartGUI.suitable p Q H).
  change TurbineSelectionChart.calculate_power with TurbineChartGUI.calculate_power.
  change (envelope TurbineSelectionChart.define_envelopes)
    with (envelope TurbineChartGUI.define_envelopes).
  destruct (TurbineChartGUI.suitable _ Q H); reflexivity.
Qed.

(** Once two entries are there to be read: either both are read as numbers
    and each entry point completes with a chart, or one of them is not a
    number and the run ends there: the form shows its error dialog and draws
    nothing, the script ends with the [ValueError] of [float]. *)
Lemma entries_read_or_rejected {B : Builtins} {C : Containment} (q h : string) :
  match float_of_str q, float_of_str h with
  | Some Q, Some H =>
      exists c_form c_script,
        TurbineChartGUI.create_plot Q H = Ok c_form /\
        TurbineChartGUI.on_plot q h = Ok (TurbineChartGUI.Chart c_form) /\
        TurbineSelectionChart.main q h = Ok c_script
  | _, _ =>
      TurbineChartGUI.on_plot q h
      = Ok (TurbineChartGUI.ErrorDialog "Geçersiz giriş" "Lütfen sayısal değerler giriniz.") /\
      TurbineSelectionChart.main q h = Raise ValueError
  end.
Proof.
  destruct paths_built as [_ Hscript].
  unfold TurbineChartGUI.on_plot, TurbineSelectionChart.main, py_float.
  cbv zeta. rewrite Hscript. cbn [mbind result_bind].
  destruct (float_of_str q) as [Q | ]; cbn [mbind result_bind].
  - destruct (float_of_str h) as [H | ]; cbn [mbind result_bind].
    + destruct (create_plot_completes Q H) as [c Hc]. rewrite Hc. cbn [mbind result_bind].
      exists c.
      destruct (TurbineSelectionChart.suitable _ Q H); eexists; repeat split.
    + split; reflexivity.
  - split; reflexivity.
Qed.

(** The claim as the specification words it fails on the console: with no
    line to read, or with one number and no second line, [input] ends the
    script with [EOFError], which is not an invalid number and which the
    script does not handle. *)
Lemma end_of_input_is_another_error :
  @main_on_console reads_50_and_1 matplotlib {| stdin := []; stdout := [] |}
  = ({| stdin := []; stdout := ["  Enter flow rate Q (m³/s): "] |}, inr EOFError) /\
  @main_on_console reads_50_and_1 matplotlib {| stdin := ["50"]; stdout := [] |}
  = ({| stdin := [];
        stdout := ["  Enter flow rate Q (m³/s): "; "  Enter head H (m): "] |},
     inr EOFError) /\
  EOFError <> Exception ValueError.
Proof. repeat split; try (vm_compute; reflexivity). discriminate. Qed.

(** C9, amended: whatever the user enters, a run ends in one of three ways.
    The form, on its two entries: one of them is not a number, and it shows
    its error dialog and draws nothing; or both are, and it draws the
    chart.  The script, on the lines of its standard input: a line it reads
    is not a number, and it ends there with the [ValueError] of [float],
    the following prompt unwritten and the following line unread; or the
    input ends at one of the two prompts, and it ends with [EOFError]; or
    both lines are numbers, and it completes with the chart.  Nothing is
    asked or read a second time, and no run ends with both an error and a
    chart. *)
Theorem errors_are_invalid_number_or_end_of_input {B : Builtins} {C : Containment}
    (q h : string) (c : console) :
  match float_of_str q, float_of_str h with
  | Some Q, Some H =>
      exists c_form,
        TurbineChartGUI.create_plot Q H = Ok c_form /\
        TurbineChartGUI.on_plot q h = Ok (TurbineChartGUI.Chart c_form)
  | _, _ =>
      TurbineChartGUI.on_plot q h
      = Ok (TurbineChartGUI.ErrorDialog "Geçersiz giriş" "Lütfen sayısal değerler giriniz.")
  end /\
  match stdin c with
  | [] =>
      main_on_console c
      = ({| stdin := []; stdout := stdout c ++ ["  Enter flow rate Q (m³/s): "] |},
         inr EOFError)
  | q_line :: rest =>
      match float_of_str q_line, rest with
      | None, _ =>
          main_on_console c
          = ({| stdin := rest; stdout := stdout c ++ ["  Enter flow rate Q (m³/s): "] |},
             inr (Exception ValueError))
      | Some _, [] =>
          main_on_console c
          = ({| stdin := [];
                stdout := stdout c ++ ["  Enter flow rate Q (m³/s): ";
                                       "  Enter head H (m): "] |},
             inr EOFError)
      | Some _, h_line :: rest' =>
          match float_of_str h_line with
          | None =>
              main_on_console c
              = ({| stdin := rest';
                    stdout := stdout c ++ ["  Enter flow rate Q (m³/s): ";
                                           "  Enter head H (m): "] |},
                 inr (Exception ValueError))
          | Some _ =>
              exists c_script,
                TurbineSelectionChart.main q_line h_line = Ok c_script /\
                main_on_console c
                = ({| stdin := rest';
                      stdout := stdout c ++ ["  Enter flow rate Q (m³/s): ";
                                             "  Enter head H (m): "] |},
                   inl c_script)
          end
      end
  end.
Proof.
  split.
  - pose proof (entries_read_or_rejected q h) as Hform.
    destruct (float_of_str q) as [Q | ]; [ | apply Hform].
    destruct (float_of_str h) as [H | ]; [ | apply Hform].
    destruct Hform as (c_form & _ & Hc & Hp & _). exists c_form. split; assumption.
  - destruct paths_built as [_ Hscript].
    unfold main_on_console, TurbineSelectionChart.main, py_float. cbv zeta.
    rewrite Hscript.
    unfold mbind, run_bind, silent, input. cbn [result_bind].
    destruct c as [[ | q_line rest] out]; cbn [stdin stdout]; [reflexivity | ].
    destruct (float_of_str q_line) as [Q | ]; cbn [stdin stdout]; [ | reflexivity].
    rewrite <- app_assoc. cbn [app].
    destruct rest as [ | h_line rest']; [reflexivity | ].
    destruct (float_of_str h_line) as [H | ]; [ | reflexivity].
    cbn [result_bind].
    destruct (TurbineSelectionChart.suitable _ Q H); eexists; split; reflexivity.
Qed.

(** C10: the two files hold the same envelopes and the same power estimate,
    and on every input they decide alike: the names kept for a point are the
    same, and what the form shows is what the script returns, with the
    script's [ValueError] shown as the error dialog. *)
Theorem entry_points_agree :
  TurbineChartGUI.define_envelopes = TurbineSelectionChart.define_envelopes /\
  (forall name,
     dict_lookup TurbineChartGUI.define_envelopes name
     = dict_lookup TurbineSelectionChart.define_envelopes name) /\
  (forall Q H label,
     TurbineChartGUI.calculate_power Q H label
     = TurbineSelectionChart.calculate_power Q H label) /\
  (forall (C : Containment) Q H, gui_classifier Q H = script_classifier Q H) /\
  (forall (B : Builtins) (C : Containment) q h,
     TurbineChartGUI.on_plot q h
     = match TurbineSelectionChart.main q h with
       | Ok c => Ok (TurbineChartGUI.Chart c)
       | Raise ValueError =>
           Ok (TurbineChartGUI.ErrorDialog "Geçersiz giriş" "Lütfen sayısal değerler giriniz.")
       | Raise e => Raise e
       end).
Proof.
  repeat split; try reflexivity.
  intros B C q h. apply on_plot_main.
Qed.

(** * Rounding in binary64 is monotone

    [SpecFloat] specifies the primitive operations: a product or a quotient
    is computed exactly, shifted to the exponent of its magnitude with a
    round and a sticky bit, and rounded to nearest even.  Read as integer
    codes, every step is monotone. *)

Section Rounding.
Local Open Scope Z_scope.

Lemma st_mono a1 b1 a2 b2 :
  0 < b1 -> 0 < b2 -> a1 * b2 <= a2 * b1 -> st a1 b1 <= st a2 b2.
Proof.
  intros Hb1 Hb2 Hle. unfold st.
  assert (Hq : a1 / b1 <= a2 / b2).
  { rewrite <- (Z.div_mul_cancel_r a1 b1 b2), <- (Z.div_mul_cancel_l a2 b2 b1) by lia.
    rewrite (Z.mul_comm b1 a2). apply Z.div_le_mono; lia. }
  pose proof (Z.div_mod a1 b1 ltac:(lia)) as E1.
  pose proof (Z.div_mod a2 b2 ltac:(lia)) as E2.
  pose proof (Z.mod_pos_bound a1 b1 Hb1) as B1.
  pose proof (Z.mod_pos_bound a2 b2 Hb2) as B2.
  set (q1 := a1 / b1) in *. set (r1 := a1 mod b1) in *.
  set (q2 := a2 / b2) in *. set (r2 := a2 mod b2) in *.
  destruct (Z.eqb_spec r1 0), (Z.eqb_spec r2 0); try lia.
  assert (q1 <> q2); [ | lia].
  intros ->. assert (b1 * q2 * b2 < a1 * b2) by nia. nia.
Qed.

Lemma ssh_st a b n :
  0 < b -> 0 <= n -> ssh (st a b) n = st a (b * 2 ^ n).
Proof.
  intros Hb Hn. unfold ssh, st.
  assert (Hp : 0 < 2 ^ n) by (apply Z.pow_pos_nonneg; lia).
  rewrite Z.pow_add_r, Z.pow_1_r by lia.
  rewrite <- (Z.div_div a b (2 ^ n)) by lia.
  rewrite (Z.rem_mul_r a b (2 ^ n)) by lia.
  set (q := a / b). set (r := a mod b).
  pose proof (Z.mod_pos_bound a b Hb) as Br. fold r in Br.
  pose proof (Z.div_mod q (2 ^ n) ltac:(lia)) as Eq.
  pose proof (Z.mod_pos_bound q (2 ^ n) Hp) as Bq.
  set (q' := q / 2 ^ n) in *. set (r' := q mod 2 ^ n) in *.
  set (s := if r =? 0 then 0 else 1).
  assert (Hs : 0 <= s <= 1) by (unfold s; destruct (r =? 0); lia).
  assert (Hdiv : (2 * q + s) / (2 ^ n * 2) = q').
  { symmetry. apply (Z.div_unique _ _ _ (2 * r' + s)); nia. }
  assert (Hmod : (2 * q + s) mod (2 ^ n * 2) = 2 * r' + s).
  { symmetry. apply (Z.mod_unique _ _ q'); nia. }
  rewrite Hdiv, Hmod. f_equal.
  clear Hdiv Hmod. subst s.
  destruct (Z.eqb_spec r 0) as [Hr | Hr];
    [ destruct (Z.eqb_spec (2 * r' + 0) 0) | destruct (Z.eqb_spec (2 * r' + 1) 0) ];
    destruct (Z.eqb_spec (r + b * r') 0);
    try reflexivity; exfalso; nia.
Qed.

Lemma ssh_0 c : ssh c 0 = c.
Proof.
  unfold ssh, st. change (2 ^ (0 + 1)) with 2.
  pose proof (Z.div_mod c 2 ltac:(lia)). pose proof (Z.mod_pos_bound c 2 ltac:(lia)).
  destruct (Z.eqb_spec (c mod 2) 0); lia.
Qed.

Lemma ssh_ssh c n k : 0 <= n -> 0 <= k -> ssh (ssh c n) k = ssh c (n + k).
Proof.
  intros Hn Hk. unfold ssh at 2. rewrite ssh_st by (try apply Z.pow_pos_nonneg; lia).
  unfold ssh. rewrite <- Z.pow_add_r by lia. do 2 f_equal. lia.
Qed.

Lemma shr_1_code mrs :
  0 <= shr_m mrs ->
  0 <= shr_m (shr_1 mrs) /\ code_of (shr_1 mrs) = ssh (code_of mrs) 1.
Proof.
  destruct mrs as [m r s]. cbn [shr_m]. intros Hm.
  unfold ssh, st. change (2 ^ (1 + 1)) with 4.
  destruct m as [ | [p | p | ] | p]; try lia; unfold shr_1, code_of; cbn [shr_m shr_r shr_s];
    destruct r, s; cbn [orb]; (split; [lia | ]);
    match goal with
    | |- _ = 2 * (?c / 4) + _ =>
        pose proof (Z.div_mod c 4 ltac:(lia));
        pose proof (Z.mod_pos_bound c 4 ltac:(lia));
        destruct (Z.eqb_spec (c mod 4) 0); lia
    end.
Qed.

Lemma iter_shr_1_code p : forall mrs,
  0 <= shr_m mrs ->
  0 <= shr_m (SpecFloat.iter_pos shr_1 p mrs) /\
  code_of (SpecFloat.iter_pos shr_1 p mrs) = ssh (code_of mrs) (Z.pos p).
Proof.
  induction p as [p IH | p IH | ]; intros mrs Hm; cbn [SpecFloat.iter_pos].
  - destruct (shr_1_code mrs Hm) as [H1 E1].
    destruct (IH _ H1) as [H2 E2]. destruct (IH _ H2) as [H3 E3].
    split; [exact H3 | ].
    rewrite E3, E2, E1, !ssh_ssh by lia. f_equal. lia.
  - destruct (IH _ Hm) as [H2 E2]. destruct (IH _ H2) as [H3 E3].
    split; [exact H3 | ].
    rewrite E3, E2, !ssh_ssh by lia. f_equal. lia.
  - apply shr_1_code, Hm.
Qed.

Lemma code_of_loc m l : code_of (shr_record_of_loc m l) = 4 * m + loc_code l.
Proof. destruct l as [ | []]; unfold code_of; cbn; lia. Qed.

Lemma shr_m_of_loc m l : shr_m (shr_record_of_loc m l) = m.
Proof. destruct l as [ | []]; reflexivity. Qed.

(** [shr] by a non-negative amount, on codes. *)
Lemma shr_code mrs e n :
  0 <= shr_m mrs -> 0 <= n ->
  0 <= shr_m (fst (shr mrs e n)) /\
  code_of (fst (shr mrs e n)) = ssh (code_of mrs) n /\
  snd (shr mrs e n) = e + n.
Proof.
  intros Hm Hn. destruct n as [ | p | p]; try lia; cbn [shr fst snd].
  - rewrite ssh_0. repeat split; [exact Hm | lia].
  - destruct (iter_shr_1_code p mrs Hm) as [H1 E1]. repeat split; assumption.
Qed.

Lemma rne_code mrs :
  0 <= shr_m mrs ->
  round_nearest_even (shr_m mrs) (loc_of_shr_record mrs) = rne (code_of mrs).
Proof.
  destruct mrs as [m r s]. cbn [shr_m]. intros Hm. unfold rne, code_of. cbn [shr_m shr_r shr_s].
  destruct r, s; cbn [loc_of_shr_record round_nearest_even];
    match goal with
    | |- context [?c / 4] =>
        assert (c / 4 = m) as -> by (symmetry; apply (Z.div_unique _ _ _ (c - 4 * m)); lia);
        match goal with
        | |- context [c mod 4] =>
        assert (c mod 4 = c - 4 * m) as -> by (symmetry; apply (Z.mod_unique _ _ m); lia)
        end
    end;
    try (destruct (Z.eqb_spec (4 * m + 2 + 0 - 4 * m) 3); try lia);
    try (destruct (Z.eqb_spec (4 * m + 2 + 1 - 4 * m) 3); try lia);
    try (destruct (Z.eqb_spec (4 * m + 0 + 1 - 4 * m) 3); try lia);
    try (destruct (Z.eqb_spec (4 * m + 0 + 0 - 4 * m) 3); try lia);
    try (destruct (Z.eqb_spec (4 * m + 2 + 0 - 4 * m) 2); try lia);
    try (destruct (Z.eqb_spec (4 * m + 0 + 1 - 4 * m) 2); try lia);
    try (destruct (Z.eqb_spec (4 * m + 0 + 0 - 4 * m) 2); try lia);
    reflexivity.
Qed.

Lemma rne_bounds c : c / 4 <= rne c <= c / 4 + 1.
Proof.
  unfold rne. destruct (c mod 4 =? 3), (c mod 4 =? 2), (Z.even (c / 4)); lia.
Qed.

Lemma rne_mono c1 c2 : c1 <= c2 -> rne c1 <= rne c2.
Proof.
  intros Hle.
  pose proof (Z.div_mod c1 4 ltac:(lia)). pose proof (Z.mod_pos_bound c1 4 ltac:(lia)).
  pose proof (Z.div_mod c2 4 ltac:(lia)). pose proof (Z.mod_pos_bound c2 4 ltac:(lia)).
  destruct (Z.eq_dec (c1 / 4) (c2 / 4)) as [Heq | Hne].
  - unfold rne. rewrite Heq.
    destruct (Z.eqb_spec (c1 mod 4) 3), (Z.eqb_spec (c1 mod 4) 2),
      (Z.eqb_spec (c2 mod 4) 3), (Z.eqb_spec (c2 mod 4) 2), (Z.even (c2 / 4)); lia.
  - pose proof (rne_bounds c1). pose proof (rne_bounds c2). lia.
Qed.

Lemma fexp_fx x : fexp prec emax x = fx x.
Proof. reflexivity. Qed.

Lemma digits2_bounds (m : positive) :
  2 ^ (Z.pos (digits2_pos m) - 1) <= Z.pos m < 2 ^ Z.pos (digits2_pos m).
Proof.
  induction m as [p IH | p IH | ]; cbn [digits2_pos].
  - rewrite Pos2Z.inj_succ. replace (Z.succ (Z.pos (digits2_pos p)) - 1)
      with (Z.succ (Z.pos (digits2_pos p) - 1)) by lia.
    rewrite !Z.pow_succ_r by lia. lia.
  - rewrite Pos2Z.inj_succ. replace (Z.succ (Z.pos (digits2_pos p)) - 1)
      with (Z.succ (Z.pos (digits2_pos p) - 1)) by lia.
    rewrite !Z.pow_succ_r by lia. lia.
  - cbn. lia.
Qed.

Lemma Zdigits2_bounds (m : Z) :
  0 < m -> 0 < Zdigits2 m /\ 2 ^ (Zdigits2 m - 1) <= m < 2 ^ Zdigits2 m.
Proof.
  destruct m as [ | p | p]; try lia. intros _. cbn [Zdigits2].
  split; [lia | apply digits2_bounds].
Qed.

(** A mantissa with at most [d] digits has at most [d - n] of them left
    after [n] are dropped. *)
Lemma shift_upper (m d n k : Z) :
  0 <= m < 2 ^ d -> 0 <= n -> 0 <= k -> d <= n + k -> m / 2 ^ n < 2 ^ k.
Proof.
  intros Hm Hn Hk Hd.
  apply Z.div_lt_upper_bound; [apply Z.pow_pos_nonneg; lia | ].
  rewrite <- Z.pow_add_r by lia.
  destruct (Z.le_gt_cases 0 d) as [Hd0 | Hd0].
  - apply Z.lt_le_trans with (2 ^ d); [lia | apply Z.pow_le_mono_r; lia].
  - rewrite (Z.pow_neg_r 2 d) in Hm by lia. lia.
Qed.

Lemma shift_lower (m d n k : Z) :
  2 ^ (d - 1) <= m -> 0 <= n -> 0 <= k -> n + k <= d - 1 -> 2 ^ k <= m / 2 ^ n.
Proof.
  intros Hm Hn Hk Hd.
  apply Z.div_le_lower_bound; [apply Z.pow_pos_nonneg; lia | ].
  rewrite <- Z.pow_add_r by lia.
  apply Z.le_trans with (2 ^ (d - 1)); [apply Z.pow_le_mono_r; lia | lia].
Qed.

Lemma ssh_div4 (m lc n : Z) :
  0 <= lc <= 3 -> 0 <= n -> ssh (4 * m + lc) n / 4 = m / 2 ^ n.
Proof.
  intros Hlc Hn. unfold ssh, st.
  assert (Hp : 0 < 2 ^ n) by (apply Z.pow_pos_nonneg; lia).
  set (c := 4 * m + lc).
  set (t := if _ =? 0 then 0 else 1).
  assert (Ht : 0 <= t <= 1) by (unfold t; destruct (_ =? 0); lia).
  set (u := c / 2 ^ (n + 1)).
  assert (Hu : (2 * u + t) / 4 = u / 2).
  { pose proof (Z.div_mod u 2 ltac:(lia)). pose proof (Z.mod_pos_bound u 2 ltac:(lia)).
    symmetry. apply (Z.div_unique _ _ _ (2 * (u mod 2) + t)); lia. }
  rewrite Hu. unfold u.
  rewrite Z.div_div by (try apply Z.pow_pos_nonneg; lia).
  replace (2 ^ (n + 1) * 2) with (4 * 2 ^ n)
    by (rewrite Z.pow_add_r, Z.pow_1_r by lia; lia).
  rewrite <- Z.div_div by lia. f_equal.
  symmetry. apply (Z.div_unique _ _ _ lc); unfold c; lia.
Qed.

Lemma loc_code_bounds l : 0 <= loc_code l <= 3.
Proof. destruct l as [ | []]; cbn; lia. Qed.

Lemma binary_round_aux_finish (s : bool) (m e : Z) (l : location) :
  0 <= m -> e <= fx (Zdigits2 m + e) ->
  let T := fx (Zdigits2 m + e) in
  let c := ssh (4 * m + loc_code l) (T - e) in
  binary_round_aux prec emax s m e l = finish s (rne c) T /\
  0 <= c / 4 < 2 ^ 53 /\ (-1074 < T -> 2 ^ 52 <= c / 4).
Proof.
  intros Hm HT T c.
  pose proof (loc_code_bounds l) as Hlc.
  assert (HTmin : -1074 <= T) by (unfold T, fx; lia).
  assert (Hdiv : c / 4 = m / 2 ^ (T - e)) by (apply ssh_div4; lia).
  assert (Hup : m / 2 ^ (T - e) < 2 ^ 53).
  { destruct (Z.eq_dec m 0) as [-> | Hm0].
    - rewrite Z.div_0_l by (apply Z.pow_nonzero; lia). lia.
    - destruct (Zdigits2_bounds m ltac:(lia)) as [Hd Hb].
      apply (shift_upper m (Zdigits2 m)); unfold T, fx in *; lia. }
  assert (Hlow : -1074 < T -> 2 ^ 52 <= m / 2 ^ (T - e)).
  { intros HTn. destruct (Z.eq_dec m 0) as [-> | Hm0].
    - unfold T, fx in *. cbn [Zdigits2] in *. lia.
    - destruct (Zdigits2_bounds m ltac:(lia)) as [Hd Hb].
      apply (shift_lower m (Zdigits2 m)); unfold T, fx in *; lia. }
  assert (HM0 : 0 <= m / 2 ^ (T - e)).
  { apply Z.div_pos; [lia | apply Z.pow_pos_nonneg; lia]. }
  pose proof (rne_bounds c) as HMb. rewrite Hdiv in HMb |- *.
  split; [ | split; [lia | exact Hlow]].
  set (M := rne c) in *.
  unfold binary_round_aux, shr_fexp. rewrite !fexp_fx. fold T.
  destruct (shr_code (shr_record_of_loc m l) e (T - e)) as (Hm1 & Hc1 & He1).
  { rewrite shr_m_of_loc. exact Hm. }
  { lia. }
  destruct (shr (shr_record_of_loc m l) e (T - e)) as [mrs1 e1].
  cbn [fst snd] in Hm1, Hc1, He1.
  rewrite code_of_loc in Hc1. fold c in Hc1.
  rewrite (rne_code mrs1 Hm1), Hc1. fold M.
  replace e1 with T by lia.
  destruct (Z.eq_dec M (2 ^ 53)) as [HM53 | HM53].
  - rewrite HM53. vm_compute (Zdigits2 (2 ^ 53)).
    assert (Hn : fx (54 + T) - T = 1) by (unfold fx; lia).
    rewrite fexp_fx, Hn. cbn [shr shr_record_of_loc SpecFloat.iter_pos shr_1]. cbn.
    unfold finish. cbn. reflexivity.
  - destruct M as [ | p | p] eqn:EM; try lia.
    + cbn [Zdigits2]. unfold finish. rewrite fexp_fx.
      destruct (fx (0 + T) - T) as [ | q | q] eqn:En; [ | unfold fx in En; lia | ];
        cbn [shr shr_record_of_loc shr_m]; reflexivity.
    + destruct (Zdigits2_bounds (Z.pos p) ltac:(lia)) as [Hd Hb].
      assert (Hd53 : Zdigits2 (Z.pos p) <= 53).
      { destruct (Z.le_gt_cases (Zdigits2 (Z.pos p)) 53) as [ | Hgt]; [assumption | ].
        assert (2 ^ 53 <= 2 ^ (Zdigits2 (Z.pos p) - 1)) by (apply Z.pow_le_mono_r; lia).
        lia. }
      unfold finish. destruct (Z.eqb_spec (Z.pos p) (2 ^ 53)) as [ | _]; [lia | ].
      rewrite fexp_fx.
      destruct (fx (Zdigits2 (Z.pos p) + T) - T) as [ | q | q] eqn:En;
        [ | unfold fx in En; lia | ];
        cbn [shr shr_record_of_loc shr_m]; reflexivity.
Qed.

(** ** The order of binary64 values, through an integer rank *)

Lemma finish_canon (s : bool) (M T : Z) :
  0 <= M <= 2 ^ 53 -> -1074 <= T -> (-1074 < T -> 2 ^ 52 <= M) ->
  canon (finish s M T) /\ sgn (finish s M T) = s /\
  rk (finish s M T) = Z.min ((T + 1074) * 2 ^ 52 + M) top.
Proof.
  intros HM HT Hlow. unfold finish, top.
  destruct M as [ | p | p]; try lia.
  - cbn [canon sgn rk]. repeat split. lia.
  - destruct (Z.eqb_spec (Z.pos p) (2 ^ 53)) as [E | NE].
    + destruct (Z.leb_spec (T + 1) 971); cbn [canon sgn rk];
        change (Z.pos (2 ^ 52)%positive) with (2 ^ 52); unfold top; repeat split; lia.
    + destruct (Z.leb_spec T 971); cbn [canon sgn rk]; unfold top; repeat split; lia.
Qed.

Lemma valid_canon x : valid_binary x = true -> x <> S754_nan -> canon x.
Proof.
  destruct x as [s | s | | s m e]; cbn [SpecFloat.valid_binary canon]; try easy.
  unfold bounded, canonical_mantissa. rewrite fexp_fx. intros Hb _.
  apply andb_true_iff in Hb as [Hc He].
  apply Z.eqb_eq in Hc. apply Z.leb_le in He. change (emax - prec) with 971 in He.
  pose proof (digits2_bounds m) as Hd.
  assert (Hd53 : Z.pos (digits2_pos m) <= 53) by (unfold fx in Hc; lia).
  assert (2 ^ Z.pos (digits2_pos m) <= 2 ^ 53) by (apply Z.pow_le_mono_r; lia).
  repeat split; try (unfold fx in Hc; lia).
  intros Hn. assert (Z.pos (digits2_pos m) = 53) as E by (unfold fx in Hc; lia).
  rewrite E in Hd. lia.
Qed.

Lemma canon_rk x : canon x -> 0 <= rk x <= top.
Proof. destruct x as [s | s | | s m e]; cbn [canon rk]; unfold top; lia. Qed.

Lemma SFleb_srk x y : canon x -> canon y -> (SFleb x y = true <-> srk x <= srk y).
Proof.
  intros Hx Hy. pose proof (canon_rk x Hx). pose proof (canon_rk y Hy).
  destruct x as [sx | sx | | sx mx ex], y as [sy | sy | | sy my ey];
    cbn [canon] in Hx, Hy; try easy;
    unfold SFleb, SFcompare, srk; cbn [sgn rk] in *; unfold top in *;
    try (destruct sx); try (destruct sy); try (split; [intros _; lia | reflexivity]);
    try (split; [discriminate | lia]).
  - (* both negative *)
    change (PosDef.Pos.compare_cont Eq mx my) with (Z.pos mx ?= Z.pos my).
    destruct (Z.compare_spec ex ey), (Z.compare_spec (Z.pos mx) (Z.pos my)); cbn [CompOpp];
      (split; [intros; try discriminate; lia | intros; try reflexivity; lia]).
  - (* both positive *)
    change (PosDef.Pos.compare_cont Eq mx my) with (Z.pos mx ?= Z.pos my).
    destruct (Z.compare_spec ex ey), (Z.compare_spec (Z.pos mx) (Z.pos my));
      (split; [intros; try discriminate; lia | intros; try reflexivity; lia]).
Qed.

(** ** Rounding is monotone *)

Lemma round_mono (m1 e1 : Z) (l1 : location) (a1 b1 : Z)
                 (m2 e2 : Z) (l2 : location) (a2 b2 : Z) :
  stands_for m1 l1 a1 b1 -> stands_for m2 l2 a2 b2 ->
  e1 <= fx (Zdigits2 m1 + e1) -> e2 <= fx (Zdigits2 m2 + e2) ->
  vle a1 b1 e1 a2 b2 e2 ->
  let o1 := binary_round_aux prec emax false m1 e1 l1 in
  let o2 := binary_round_aux prec emax false m2 e2 l2 in
  canon o1 /\ canon o2 /\ sgn o1 = false /\ sgn o2 = false /\ rk o1 <= rk o2.
Proof.
  intros (Ha1 & Hb1 & Hm1 & Hc1) (Ha2 & Hb2 & Hm2 & Hc2) HT1 HT2 V o1 o2.
  assert (Hm1' : 0 <= m1) by (subst m1; apply Z.div_pos; lia).
  assert (Hm2' : 0 <= m2) by (subst m2; apply Z.div_pos; lia).
  destruct (binary_round_aux_finish false m1 e1 l1 Hm1' HT1) as (E1 & B1 & L1).
  destruct (binary_round_aux_finish false m2 e2 l2 Hm2' HT2) as (E2 & B2 & L2).
  set (T1 := fx (Zdigits2 m1 + e1)) in *. set (T2 := fx (Zdigits2 m2 + e2)) in *.
  rewrite Hc1, ssh_st in E1, B1, L1 by lia.
  rewrite Hc2, ssh_st in E2, B2, L2 by lia.
  set (c1 := st (2 * a1) (b1 * 2 ^ (T1 - e1))) in *.
  set (c2 := st (2 * a2) (b2 * 2 ^ (T2 - e2))) in *.
  pose proof (rne_bounds c1) as R1. pose proof (rne_bounds c2) as R2.
  assert (HT1m : -1074 <= T1) by (unfold T1, fx; lia).
  assert (HT2m : -1074 <= T2) by (unfold T2, fx; lia).
  destruct (finish_canon false (rne c1) T1) as (C1 & S1 & K1); [lia | lia | lia | ].
  destruct (finish_canon false (rne c2) T2) as (C2 & S2 & K2); [lia | lia | lia | ].
  fold o1 in E1. fold o2 in E2. rewrite <- E1 in C1, S1, K1. rewrite <- E2 in C2, S2, K2.
  repeat split; try assumption.
  rewrite K1, K2. apply Z.min_le_compat_r.
  destruct (Z.lt_trichotomy T1 T2) as [Hlt | [Heq | Hgt]].
  - specialize (L2 ltac:(lia)). lia.
  - assert (Hc : c1 <= c2).
    { unfold c1, c2. rewrite <- Heq.
      set (e0 := Z.min e1 e2) in *. unfold vle in V. fold e0 in V.
      set (k := T1 - e1 - e2 + e0).
      assert (Hk : 0 <= k) by (unfold k, e0; lia).
      assert (P0 : 0 < 2 ^ k) by (apply Z.pow_pos_nonneg; lia).
      replace (T1 - e2) with ((e1 - e0) + k) by (unfold k; lia).
      replace (T1 - e1) with ((e2 - e0) + k) by (unfold k; lia).
      rewrite !Z.pow_add_r by (unfold e0; lia).
      assert (0 < 2 ^ (e1 - e0)) by (apply Z.pow_pos_nonneg; unfold e0; lia).
      assert (0 < 2 ^ (e2 - e0)) by (apply Z.pow_pos_nonneg; unfold e0; lia).
      apply st_mono; [repeat apply Z.mul_pos_pos; lia | repeat apply Z.mul_pos_pos; lia | ].
      set (P1 := 2 ^ (e1 - e0)) in *. set (P2 := 2 ^ (e2 - e0)) in *.
      assert (a1 * b2 * P1 * (2 * 2 ^ k) <= a2 * b1 * P2 * (2 * 2 ^ k))
        by (apply Z.mul_le_mono_nonneg_r; lia).
      lia. }
    apply rne_mono in Hc. lia.
  - exfalso.
    specialize (L1 ltac:(lia)).
    assert (Hm1p : 0 < m1).
    { destruct (Z.eq_dec m1 0) as [E | ]; [ | lia].
      unfold T1 in Hgt, HT1. rewrite E in Hgt, HT1. cbn [Zdigits2] in *. unfold fx in *. lia. }
    destruct (Zdigits2_bounds m1 Hm1p) as [Hd1 Hbd1].
    set (d1 := Zdigits2 m1) in *.
    assert (Hm2d : exists d2, 0 <= d2 /\ m2 + 1 <= 2 ^ d2 /\ T2 = fx (d2 + e2)).
    { destruct (Z.eq_dec m2 0) as [E | ].
      - exists 0. unfold T2. rewrite E. cbn. lia.
      - destruct (Zdigits2_bounds m2 ltac:(lia)) as [Hd2 Hbd2].
        exists (Zdigits2 m2). repeat split; try lia. }
    destruct Hm2d as (d2 & Hd2 & Hbd2 & HT2d).
    assert (Hde : d2 + e2 + 1 <= d1 + e1) by (unfold T1, fx in *; lia).
    set (e0 := Z.min e1 e2) in *. unfold vle in V. fold e0 in V.
    assert (Q1 : 0 < 2 ^ (e1 - e0)) by (apply Z.pow_pos_nonneg; unfold e0; lia).
    assert (Q2 : 0 < 2 ^ (e2 - e0)) by (apply Z.pow_pos_nonneg; unfold e0; lia).
    assert (Hpow : 2 ^ d2 * 2 ^ (e2 - e0) <= 2 ^ (d1 - 1) * 2 ^ (e1 - e0)).
    { rewrite <- !Z.pow_add_r by (unfold e0; lia).
      apply Z.pow_le_mono_r; unfold e0; lia. }
    set (P1 := 2 ^ (e1 - e0)) in *. set (P2 := 2 ^ (e2 - e0)) in *.
    set (D1 := 2 ^ (d1 - 1)) in *. set (D2 := 2 ^ d2) in *.
    pose proof (Z.div_mod a1 b1 ltac:(lia)) as Ea1.
    pose proof (Z.mod_pos_bound a1 b1 Hb1) as Ra1.
    pose proof (Z.div_mod a2 b2 ltac:(lia)) as Ea2.
    pose proof (Z.mod_pos_bound a2 b2 Hb2) as Ra2.
    rewrite <- Hm1 in Ea1. rewrite <- Hm2 in Ea2.
    assert (G1 : b1 * D1 <= a1).
    { assert (b1 * D1 <= b1 * m1) by (apply Z.mul_le_mono_nonneg_l; lia). lia. }
    assert (G2 : a2 < b2 * D2).
    { assert (b2 * (m2 + 1) <= b2 * D2) by (apply Z.mul_le_mono_nonneg_l; lia). lia. }
    assert (G3 : b1 * D1 * (b2 * P1) <= a1 * (b2 * P1)).
    { apply Z.mul_le_mono_nonneg_r; [apply Z.lt_le_incl, Z.mul_pos_pos; lia | lia]. }
    assert (G4 : a2 * (b1 * P2) < b2 * D2 * (b1 * P2)).
    { apply Z.mul_lt_mono_pos_r; [apply Z.mul_pos_pos; lia | lia]. }
    assert (G5 : D2 * P2 * (b1 * b2) <= D1 * P1 * (b1 * b2)).
    { apply Z.mul_le_mono_nonneg_r; [apply Z.lt_le_incl, Z.mul_pos_pos; lia | lia]. }
    lia.
Qed.

(** ** Operations that commute with the sign and grow with the magnitude *)

Lemma canon_set_sign s x : canon x -> canon (set_sign s x).
Proof. destruct x; cbn; tauto. Qed.

Lemma rk_set_sign s x : rk (set_sign s x) = rk x.
Proof. destruct x; reflexivity. Qed.

Lemma sgn_set_sign s x : canon x -> sgn (set_sign s x) = s.
Proof. destruct x; cbn; tauto. Qed.

Lemma odd_monotone_srk F x y :
  odd_monotone F -> canon x -> canon y -> srk x <= srk y ->
  canon (F x) /\ canon (F y) /\ srk (F x) <= srk (F y).
Proof.
  intros HF Hx Hy Hle.
  split; [apply HF, Hx | split; [apply HF, Hy | ]].
  pose proof (canon_rk x Hx) as Bx. pose proof (canon_rk y Hy) as By.
  pose proof (canon_rk _ (om_canon F HF x Hx)) as BFx.
  pose proof (canon_rk _ (om_canon F HF y Hy)) as BFy.
  pose proof (om_mono F HF (set_sign false x) (set_sign false y)) as Hm.
  pose proof (om_mono F HF (set_sign false y) (set_sign false x)) as Hm'.
  rewrite !rk_set_sign, <- !(om_abs F HF) in Hm, Hm' by assumption.
  rewrite !sgn_set_sign in Hm, Hm' by assumption.
  unfold srk in *. rewrite !(om_sgn F HF) by assumption.
  destruct (sgn x), (sgn y).
  - assert (rk (F y) <= rk (F x)) by (apply Hm'; auto using canon_set_sign; lia). lia.
  - lia.
  - assert (rk x = 0) by lia. assert (rk y = 0) by lia.
    rewrite (om_zero F HF x), (om_zero F HF y) by assumption. lia.
  - assert (rk (F x) <= rk (F y)) by (apply Hm; auto using canon_set_sign; lia). lia.
Qed.

Lemma binary_round_aux_sign s m e l :
  binary_round_aux prec emax s m e l
  = set_sign s (binary_round_aux prec emax false m e l).
Proof.
  unfold binary_round_aux.
  destruct (shr_fexp prec emax m e l) as [mrs' e'].
  destruct (shr_fexp prec emax _ e' loc_Exact) as [mrs'' e''].
  destruct (shr_m mrs''); [reflexivity | | reflexivity].
  destruct (e'' <=? emax - prec); reflexivity.
Qed.

(** The order of two positive finite values, on mantissas and exponents. *)
Lemma canon_vle s1 m1 e1 s2 m2 e2 :
  canon (S754_finite s1 m1 e1) -> canon (S754_finite s2 m2 e2) ->
  rk (S754_finite s1 m1 e1) <= rk (S754_finite s2 m2 e2) ->
  e1 <= e2 /\ Z.pos m1 * 2 ^ (e1 - e1) <= Z.pos m2 * 2 ^ (e2 - e1).
Proof.
  cbn [canon rk]. intros (He1 & Hm1 & Hn1) (He2 & Hm2 & Hn2) Hle.
  assert (H12 : e1 <= e2) by lia.
  split; [exact H12 | ].
  rewrite Z.sub_diag, Z.pow_0_r.
  destruct (Z.eq_dec e1 e2) as [-> | Hne].
  - rewrite Z.sub_diag, Z.pow_0_r. lia.
  - assert (2 ^ 1 <= 2 ^ (e2 - e1)) by (apply Z.pow_le_mono_r; lia).
    assert (2 ^ 52 * 2 ^ 1 <= Z.pos m2 * 2 ^ (e2 - e1)).
    { apply Z.mul_le_mono_nonneg; lia. }
    lia.
Qed.

Lemma digits_lower (m k : Z) : 0 <= k -> 2 ^ k <= m -> k + 1 <= Zdigits2 m.
Proof.
  intros Hk Hm.
  assert (0 < 2 ^ k) by (apply Z.pow_pos_nonneg; lia).
  destruct (Zdigits2_bounds m ltac:(lia)) as [Hd Hb].
  destruct (Z.le_gt_cases (k + 1) (Zdigits2 m)) as [ | Hgt]; [assumption | ].
  assert (2 ^ Zdigits2 m <= 2 ^ k) by (apply Z.pow_le_mono_r; lia). lia.
Qed.

Section MulBy.
Variables (mc : positive) (ec : Z).
Hypothesis Hc : canon (S754_finite false mc ec).

Let F (x : spec_float) : spec_float := SFmul prec emax x (S754_finite false mc ec).

Lemma mul_enough_digits s m e :
  canon (S754_finite s m e) ->
  e + ec <= fx (Zdigits2 (Z.pos (m * mc)) + (e + ec)).
Proof.
  cbn [canon] in *. intros (He & Hm & Hn). destruct Hc as (Hec & Hmc & Hnc).
  rewrite Pos2Z.inj_mul.
  destruct (Z.eq_dec e (-1074)) as [-> | Hne].
  - destruct (Z.le_gt_cases ec 0) as [Hle | Hgt]; [unfold fx; lia | ].
    assert (2 ^ 52 <= Z.pos m * Z.pos mc) by nia.
    pose proof (digits_lower _ 52 ltac:(lia) H). unfold fx. lia.
  - destruct (Z.eq_dec ec (-1074)) as [-> | Hnec].
    + destruct (Z.le_gt_cases e 0) as [Hle | Hgt]; [unfold fx; lia | ].
      assert (2 ^ 52 <= Z.pos m * Z.pos mc) by nia.
      pose proof (digits_lower _ 52 ltac:(lia) H). unfold fx. lia.
    + assert (2 ^ 52 <= Z.pos m * Z.pos mc) by nia.
      pose proof (digits_lower _ 52 ltac:(lia) H). unfold fx. lia.
Qed.

Lemma mul_stands_for (m : positive) :
  stands_for (Z.pos (m * mc)) loc_Exact (Z.pos (m * mc)) 1.
Proof.
  unfold stands_for, st. rewrite !Z.div_1_r, Z.mod_1_r.
  change (0 =? 0) with true. cbn [loc_code].
  repeat split; lia.
Qed.

Lemma SFmul_finite s m e :
  F (S754_finite s m e)
  = set_sign s (binary_round_aux prec emax false (Z.pos (m * mc)) (e + ec) loc_Exact).
Proof.
  unfold F. cbn [SFmul]. rewrite xorb_false_r. apply binary_round_aux_sign.
Qed.

Lemma SFmul_odd_monotone : odd_monotone F.
Proof.
  assert (Hfin : forall s m e, canon (S754_finite s m e) ->
            canon (F (S754_finite s m e)) /\ sgn (F (S754_finite s m e)) = s /\
            rk (F (S754_finite s m e)) = rk (F (S754_finite false m e))).
  { intros s m e Hx. rewrite !SFmul_finite, !rk_set_sign.
    destruct (round_mono _ _ _ _ _ _ _ _ _ _ (mul_stands_for m) (mul_stands_for m)
                (mul_enough_digits s m e Hx) (mul_enough_digits s m e Hx))
      as (C1 & _ & S1 & _ & _).
    { unfold vle. lia. }
    repeat split; [apply canon_set_sign, C1 | apply sgn_set_sign, C1]. }
  assert (HC : forall x, canon x -> canon (F x)).
  { intros [s | s | | s m e] Hx; [exact I | exact I | destruct Hx | apply Hfin, Hx]. }
  split.
  - exact HC.
  - intros [s | s | | s m e] Hx;
      [apply xorb_false_r | apply xorb_false_r | destruct Hx | apply Hfin, Hx].
  - intros [s | s | | s m e] Hx; [reflexivity | reflexivity | destruct Hx | apply Hfin, Hx].
  - intros [s | s | | s m e] Hx; cbn [rk canon] in *; unfold top; try reflexivity; lia.
  - intros x y Hx Hy Sx Sy Hle.
    pose proof (canon_rk x Hx) as Bx. pose proof (canon_rk y Hy) as By.
    pose proof (canon_rk _ (HC x Hx)) as BFx. pose proof (canon_rk _ (HC y Hy)) as BFy.
    destruct x as [sx | sx | | sx mx ex]; [ | | destruct Hx | ].
    + change (rk (F (S754_zero sx))) with 0. lia.
    + destruct y as [sy | sy | | sy my ey]; [ | | destruct Hy | ].
      * cbn [rk] in Hle. unfold top in Hle. lia.
      * change (rk (F (S754_infinity sx))) with top.
        change (rk (F (S754_infinity sy))) with top. lia.
      * cbn [rk canon] in Hle, Hy. unfold top in Hle. lia.
    + destruct y as [sy | sy | | sy my ey]; [ | | destruct Hy | ].
      * cbn [rk canon] in Hle, Hx. lia.
      * change (rk (F (S754_infinity sy))) with top. lia.
      * cbn [sgn] in Sx, Sy. subst sx sy. rewrite !SFmul_finite, !rk_set_sign.
        destruct (canon_vle false mx ex false my ey Hx Hy Hle) as [He Hv].
        apply (round_mono _ _ _ _ _ _ _ _ _ _ (mul_stands_for mx) (mul_stands_for my)).
        -- apply (mul_enough_digits false), Hx.
        -- apply (mul_enough_digits false), Hy.
        -- unfold vle. rewrite Z.min_l by lia. rewrite !Pos2Z.inj_mul.
           replace (ex + ec - (ex + ec)) with (ex - ex) by lia.
           replace (ey + ec - (ex + ec)) with (ey - ex) by lia.
           assert (Z.pos mx * 2 ^ (ex - ex) * Z.pos mc <= Z.pos my * 2 ^ (ey - ex) * Z.pos mc)
             by (apply Z.mul_le_mono_nonneg_r; lia).
           lia.
Qed.
End MulBy.

Lemma new_location_code (b q r : Z) :
  0 < b -> 0 <= r < b ->
  4 * q + loc_code (new_location b r) = st (2 * (b * q + r)) b.
Proof.
  intros Hb Hr. unfold st.
  assert (Hcases : r = 0 \/ (0 < r /\ 2 * r < b) \/ 2 * r = b \/ b < 2 * r) by lia.
  assert (Hdm : forall u v, 0 <= v < b -> 2 * (b * q + r) = b * u + v ->
            (2 * (b * q + r)) / b = u /\ (2 * (b * q + r)) mod b = v).
  { intros u v Hv E. split.
    - symmetry. apply (Z.div_unique _ _ _ v); lia.
    - symmetry. apply (Z.mod_unique _ _ u); lia. }
  assert (Hloc : loc_code (new_location b r)
                 = if r =? 0 then 0 else if 2 * r <? b then 1
                   else if 2 * r =? b then 2 else 3).
  { unfold new_location, new_location_even, new_location_odd.
    destruct (Z.even b) eqn:Ev.
    - destruct (Z.eqb_spec r 0); [reflexivity | ].
      destruct (Z.compare_spec (2 * r) b), (Z.ltb_spec (2 * r) b), (Z.eqb_spec (2 * r) b);
        cbn [loc_code]; lia.
    - assert (Hodd : 2 * r <> b).
      { intros E. rewrite <- E, Z.even_mul in Ev. discriminate. }
      destruct (Z.eqb_spec r 0); [reflexivity | ].
      destruct (Z.compare_spec (2 * r + 1) b), (Z.ltb_spec (2 * r) b),
        (Z.eqb_spec (2 * r) b); cbn [loc_code]; lia. }
  rewrite Hloc.
  destruct Hcases as [-> | [[H0 H1] | [H2 | H3]]].
  - destruct (Hdm (2 * q) 0) as [-> ->]; [lia | lia | ]. cbn. lia.
  - destruct (Hdm (2 * q) (2 * r)) as [-> ->]; [lia | lia | ].
    destruct (Z.eqb_spec r 0), (Z.ltb_spec (2 * r) b), (Z.eqb_spec (2 * r) 0); lia.
  - destruct (Hdm (2 * q + 1) 0) as [-> ->]; [lia | lia | ].
    destruct (Z.eqb_spec r 0), (Z.ltb_spec (2 * r) b), (Z.eqb_spec (2 * r) b);
      cbn; lia.
  - destruct (Hdm (2 * q + 1) (2 * r - b)) as [-> ->]; [lia | lia | ].
    destruct (Z.eqb_spec r 0), (Z.ltb_spec (2 * r) b), (Z.eqb_spec (2 * r) b),
      (Z.eqb_spec (2 * r - b) 0); lia.
Qed.

Section DivBy.
Variables (md : positive) (ed : Z).

Let F (x : spec_float) : spec_float := SFdiv prec emax x (S754_finite false md ed).

Lemma SFdiv_core (m : positive) (e : Z) :
  SFdiv_core_binary prec emax (Z.pos m) e (Z.pos md) ed
  = (div_num md ed m e / Z.pos md, div_exp md ed m e,
     new_location (Z.pos md) (div_num md ed m e mod Z.pos md)).
Proof.
  unfold SFdiv_core_binary. rewrite fexp_fx. fold (div_exp md ed m e).
  assert (Hs : 0 <= e - ed - div_exp md ed m e) by (unfold div_exp; lia).
  assert (Hm' : match e - ed - div_exp md ed m e with
                | 0 => Z.pos m
                | Z.pos _ => Z.shiftl (Z.pos m) (e - ed - div_exp md ed m e)
                | Z.neg _ => 0
                end = div_num md ed m e).
  { unfold div_num. set (sh := e - ed - div_exp md ed m e) in *.
    destruct sh as [ | p | p]; [cbn; lia | | lia].
    rewrite Z.shiftl_mul_pow2 by lia. reflexivity. }
  rewrite Hm'.
  unfold Z.div, Z.modulo. destruct (Z.div_eucl (div_num md ed m e) (Z.pos md)). reflexivity.
Qed.

Lemma div_stands_for (m : positive) (e : Z) :
  stands_for (div_num md ed m e / Z.pos md)
             (new_location (Z.pos md) (div_num md ed m e mod Z.pos md))
             (div_num md ed m e) (Z.pos md).
Proof.
  assert (Hs : 0 <= e - ed - div_exp md ed m e) by (unfold div_exp; lia).
  assert (Ha : 0 <= div_num md ed m e).
  { unfold div_num. apply Z.mul_nonneg_nonneg; [lia | apply Z.pow_nonneg; lia]. }
  repeat split; try lia.
  rewrite new_location_code by (try apply Z.mod_pos_bound; lia).
  rewrite <- Z.div_mod by lia. reflexivity.
Qed.

Lemma div_enough_digits s (m : positive) (e : Z) :
  canon (S754_finite s m e) ->
  div_exp md ed m e <= fx (Zdigits2 (div_num md ed m e / Z.pos md) + div_exp md ed m e).
Proof.
  intros Hx.
  set (d1 := Zdigits2 (Z.pos m)). set (d2 := Zdigits2 (Z.pos md)).
  destruct (Zdigits2_bounds (Z.pos m) ltac:(lia)) as [Hd1 Hb1]. fold d1 in Hd1, Hb1.
  destruct (Zdigits2_bounds (Z.pos md) ltac:(lia)) as [Hd2 Hb2]. fold d2 in Hd2, Hb2.
  assert (He' : div_exp md ed m e <= fx (d1 + e - (d2 + ed)) /\ div_exp md ed m e <= e - ed)
    by (unfold div_exp; fold d1 d2; lia).
  destruct (Z.le_gt_cases (div_exp md ed m e) (-1074)) as [Hle | Hgt]; [unfold fx; lia | ].
  assert (Hs : 53 - d1 + d2 <= e - ed - div_exp md ed m e) by (unfold fx in He'; lia).
  set (sh := e - ed - div_exp md ed m e) in *.
  assert (Hq : 2 ^ 52 <= div_num md ed m e / Z.pos md).
  { apply Z.div_le_lower_bound; [lia | ].
    unfold div_num. fold sh.
    assert (2 ^ (d2 + 52) <= 2 ^ (d1 - 1) * 2 ^ sh).
    { rewrite <- Z.pow_add_r by lia. apply Z.pow_le_mono_r; lia. }
    assert (2 ^ (d1 - 1) * 2 ^ sh <= Z.pos m * 2 ^ sh).
    { apply Z.mul_le_mono_nonneg_r; [apply Z.pow_nonneg; lia | lia]. }
    rewrite Z.pow_add_r in H by lia. lia. }
  pose proof (digits_lower _ 52 ltac:(lia) Hq). unfold fx. lia.
Qed.

Lemma SFdiv_finite s m e :
  F (S754_finite s m e)
  = set_sign s (binary_round_aux prec emax false (div_num md ed m e / Z.pos md) (div_exp md ed m e)
                  (new_location (Z.pos md) (div_num md ed m e mod Z.pos md))).
Proof.
  unfold F. cbn [SFdiv]. rewrite SFdiv_core, xorb_false_r. apply binary_round_aux_sign.
Qed.

Lemma div_vle (m1 : positive) (e1 : Z) (m2 : positive) (e2 : Z) :
  e1 <= e2 -> Z.pos m1 * 2 ^ (e1 - e1) <= Z.pos m2 * 2 ^ (e2 - e1) ->
  vle (div_num md ed m1 e1) (Z.pos md) (div_exp md ed m1 e1) (div_num md ed m2 e2) (Z.pos md) (div_exp md ed m2 e2).
Proof.
  intros He Hv. unfold vle, div_num.
  set (x1 := div_exp md ed m1 e1). set (x2 := div_exp md ed m2 e2). set (x0 := Z.min x1 x2).
  assert (H1 : x1 <= e1 - ed) by (unfold x1, div_exp; lia).
  assert (H2 : x2 <= e2 - ed) by (unfold x2, div_exp; lia).
  rewrite Z.sub_diag, Z.pow_0_r in Hv.
  set (k := e1 - ed - x0).
  assert (Hk : 0 <= k) by (unfold k, x0; lia).
  assert (P1 : 2 ^ (e1 - ed - x1) * 2 ^ (x1 - x0) = 2 ^ k).
  { rewrite <- Z.pow_add_r by (unfold x0; lia). f_equal. unfold k. lia. }
  assert (P2 : 2 ^ (e2 - ed - x2) * 2 ^ (x2 - x0) = 2 ^ (e2 - e1) * 2 ^ k).
  { rewrite <- !Z.pow_add_r by (unfold x0; lia). f_equal. unfold k. lia. }
  replace (Z.pos m1 * 2 ^ (e1 - ed - x1) * Z.pos md * 2 ^ (x1 - x0))
    with (Z.pos md * (Z.pos m1 * (2 ^ (e1 - ed - x1) * 2 ^ (x1 - x0)))) by ring.
  replace (Z.pos m2 * 2 ^ (e2 - ed - x2) * Z.pos md * 2 ^ (x2 - x0))
    with (Z.pos md * (Z.pos m2 * (2 ^ (e2 - ed - x2) * 2 ^ (x2 - x0)))) by ring.
  rewrite P1, P2.
  apply Z.mul_le_mono_nonneg_l; [lia | ].
  rewrite Z.mul_assoc.
  apply Z.mul_le_mono_nonneg_r; [apply Z.pow_nonneg; lia | lia].
Qed.

Lemma SFdiv_odd_monotone : odd_monotone F.
Proof.
  assert (Hfin : forall s m e, canon (S754_finite s m e) ->
            canon (F (S754_finite s m e)) /\ sgn (F (S754_finite s m e)) = s /\
            rk (F (S754_finite s m e)) = rk (F (S754_finite false m e))).
  { intros s m e Hx. rewrite !SFdiv_finite, !rk_set_sign.
    destruct (round_mono _ _ _ _ _ _ _ _ _ _ (div_stands_for m e) (div_stands_for m e)
                (div_enough_digits s m e Hx) (div_enough_digits s m e Hx))
      as (C1 & _ & S1 & _ & _).
    { unfold vle. lia. }
    repeat split; [apply canon_set_sign, C1 | apply sgn_set_sign, C1]. }
  assert (HC : forall x, canon x -> canon (F x)).
  { intros [s | s | | s m e] Hx; [exact I | exact I | destruct Hx | apply Hfin, Hx]. }
  split.
  - exact HC.
  - intros [s | s | | s m e] Hx;
      [apply xorb_false_r | apply xorb_false_r | destruct Hx | apply Hfin, Hx].
  - intros [s | s | | s m e] Hx; [reflexivity | reflexivity | destruct Hx | apply Hfin, Hx].
  - intros [s | s | | s m e] Hx; cbn [rk canon] in *; unfold top; try reflexivity; lia.
  - intros x y Hx Hy Sx Sy Hle.
    pose proof (canon_rk x Hx) as Bx. pose proof (canon_rk y Hy) as By.
    pose proof (canon_rk _ (HC x Hx)) as BFx. pose proof (canon_rk _ (HC y Hy)) as BFy.
    destruct x as [sx | sx | | sx mx ex]; [ | | destruct Hx | ].
    + change (rk (F (S754_zero sx))) with 0. lia.
    + destruct y as [sy | sy | | sy my ey]; [ | | destruct Hy | ].
      * cbn [rk] in Hle. unfold top in Hle. lia.
      * change (rk (F (S754_infinity sx))) with top.
        change (rk (F (S754_infinity sy))) with top. lia.
      * cbn [rk canon] in Hle, Hy. unfold top in Hle. lia.
    + destruct y as [sy | sy | | sy my ey]; [ | | destruct Hy | ].
      * cbn [rk canon] in Hle, Hx. lia.
      * change (rk (F (S754_infinity sy))) with top. lia.
      * cbn [sgn] in Sx, Sy. subst sx sy. rewrite !SFdiv_finite, !rk_set_sign.
        destruct (canon_vle false mx ex false my ey Hx Hy Hle) as [He Hv].
        apply (round_mono _ _ _ _ _ _ _ _ _ _ (div_stands_for mx ex) (div_stands_for my ey)).
        -- apply (div_enough_digits false), Hx.
        -- apply (div_enough_digits false), Hy.
        -- apply div_vle; assumption.
Qed.
End DivBy.

(** ** From the specification floats to the primitive ones *)

Section Prim.
Local Open Scope float_scope.

Lemma SFleb_not_nan x y :
  SFleb x y = true -> x <> S754_nan /\ y <> S754_nan.
Proof.
  unfold SFleb, SFcompare.
  destruct x as [? | ? | | ? ? ?], y as [? | ? | | ? ? ?]; try discriminate;
    intros _; split; discriminate.
Qed.

Lemma leb_srk (x y : float) :
  (x <=? y) = true ->
  canon (Prim2SF x) /\ canon (Prim2SF y) /\ (srk (Prim2SF x) <= srk (Prim2SF y))%Z.
Proof.
  rewrite FloatAxioms.leb_spec. intros Hle.
  destruct (SFleb_not_nan _ _ Hle) as [Nx Ny].
  pose proof (valid_canon _ (Prim2SF_valid x) Nx) as Cx.
  pose proof (valid_canon _ (Prim2SF_valid y) Ny) as Cy.
  repeat split; try assumption. apply SFleb_srk; assumption.
Qed.

Lemma srk_leb (x y : float) :
  canon (Prim2SF x) -> canon (Prim2SF y) -> (srk (Prim2SF x) <= srk (Prim2SF y))%Z ->
  (x <=? y) = true.
Proof. intros Cx Cy Hle. rewrite FloatAxioms.leb_spec. apply SFleb_srk; assumption. Qed.

Lemma ltb_leb (x y : float) : (x <? y) = true -> (x <=? y) = true.
Proof.
  rewrite FloatAxioms.ltb_spec, FloatAxioms.leb_spec. unfold SFltb, SFleb.
  destruct (SFcompare (Prim2SF x) (Prim2SF y)) as [[] | ]; congruence.
Qed.

Lemma positive_finite_intro (c : float) :
  (0 <? c) = true -> is_finite c = true -> positive_finite c.
Proof.
  intros Hpos Hfin. rewrite FloatAxioms.ltb_spec in Hpos.
  change (Prim2SF 0) with (S754_zero false) in Hpos.
  unfold is_finite, is_infinity in Hfin.
  rewrite FloatAxioms.eqb_spec, FloatAxioms.abs_spec in Hfin.
  change (Prim2SF infinity) with (S754_infinity false) in Hfin.
  destruct (Prim2SF c) as [s | s | | s m e] eqn:E; try discriminate.
  - destruct s; [discriminate | ]. cbn in Hfin.
    rewrite orb_true_r in Hfin. discriminate.
  - destruct s; [discriminate | ]. exists m, e. exact E.
Qed.

Lemma positive_finite_canon (c : float) m e :
  Prim2SF c = S754_finite false m e -> canon (S754_finite false m e).
Proof.
  intros E. rewrite <- E. apply valid_canon; [apply Prim2SF_valid | ].
  rewrite E. discriminate.
Qed.

Lemma SFmul_comm x y : SFmul prec emax x y = SFmul prec emax y x.
Proof.
  destruct x as [sx | sx | | sx mx ex], y as [sy | sy | | sy my ey]; cbn [SFmul];
    try reflexivity; try (rewrite xorb_comm; reflexivity).
  rewrite xorb_comm, Pos.mul_comm, Z.add_comm. reflexivity.
Qed.

Lemma mul_r_mono (c x y : float) :
  positive_finite c -> (x <=? y) = true -> (x * c <=? y * c) = true.
Proof.
  intros (m & e & Ec) Hle.
  destruct (leb_srk x y Hle) as (Cx & Cy & Hs).
  pose proof (SFmul_odd_monotone m e (positive_finite_canon c m e Ec)) as HF.
  destruct (odd_monotone_srk _ _ _ HF Cx Cy Hs) as (Fx & Fy & Hm).
  apply srk_leb; rewrite !FloatAxioms.mul_spec, Ec; [exact Fx | exact Fy | exact Hm].
Qed.

Lemma mul_l_mono (c x y : float) :
  positive_finite c -> (x <=? y) = true -> (c * x <=? c * y) = true.
Proof.
  intros Hc Hle. pose proof (mul_r_mono c x y Hc Hle) as H.
  rewrite FloatAxioms.leb_spec, !FloatAxioms.mul_spec in *. unfold SF64mul in *.
  rewrite (SFmul_comm (Prim2SF c) (Prim2SF x)), (SFmul_comm (Prim2SF c) (Prim2SF y)).
  exact H.
Qed.

Lemma div_r_mono (c x y : float) :
  positive_finite c -> (x <=? y) = true -> (x / c <=? y / c) = true.
Proof.
  intros (m & e & Ec) Hle.
  destruct (leb_srk x y Hle) as (Cx & Cy & Hs).
  pose proof (SFdiv_odd_monotone m e) as HF.
  destruct (odd_monotone_srk _ _ _ HF Cx Cy Hs) as (Fx & Fy & Hm).
  apply srk_leb; rewrite !FloatAxioms.div_spec, Ec; [exact Fx | exact Fy | exact Hm].
Qed.

End Prim.

End Rounding.

(** ** Multiplying by one *)

Section One.
Local Open Scope Z_scope.

Lemma digits_upper (m k : Z) : 0 < m -> m < 2 ^ k -> Zdigits2 m <= k.
Proof.
  intros Hm Hk. destruct (Zdigits2_bounds m Hm) as [Hd Hb].
  destruct (Z.le_gt_cases (Zdigits2 m) k) as [ | Hgt]; [assumption | ].
  assert (2 ^ k <= 2 ^ (Zdigits2 m - 1)) by (apply Z.pow_le_mono_r; lia). lia.
Qed.

(** Multiplying by one is exact. *)
Lemma SFmul_one x :
  canon x \/ x = S754_nan ->
  SFmul prec emax x (S754_finite false (2 ^ 52)%positive (-52)) = x.
Proof.
  destruct x as [s | s | | s m e]; cbn [SFmul]; rewrite ?xorb_false_r; try reflexivity.
  intros [(He & Hm & Hn) | Hnan]; [ | discriminate].
  rewrite Pos2Z.inj_mul. change (Z.pos (2 ^ 52)%positive) with (2 ^ 52).
  set (m' := Z.pos m * 2 ^ 52).
  assert (Hm' : 2 ^ 52 <= m' < 2 ^ 105) by (unfold m'; lia).
  assert (HT : fx (Zdigits2 m' + (e + -52)) = e).
  { pose proof (digits_upper m' 105 ltac:(lia) ltac:(lia)) as Hup.
    destruct (Z.eq_dec e (-1074)) as [-> | Hne]; [unfold fx; lia | ].
    assert (2 ^ 104 <= m') by (unfold m'; lia).
    pose proof (digits_lower m' 104 ltac:(lia) H). unfold fx. lia. }
  destruct (binary_round_aux_finish s m' (e + -52) loc_Exact) as (E & _ & _);
    [lia | rewrite HT; lia | ].
  rewrite E, HT. cbn [loc_code].
  replace (e - (e + -52)) with 52 by lia.
  assert (Hc : ssh (4 * m' + 0) 52 = 4 * Z.pos m).
  { unfold ssh, st. change (2 ^ (52 + 1)) with (2 * 2 ^ 52).
    replace (4 * m' + 0) with (2 * Z.pos m * (2 * 2 ^ 52)) by (unfold m'; lia).
    rewrite Z.div_mul, Z.mod_mul by lia. cbn. lia. }
  rewrite Hc.
  assert (Hr : rne (4 * Z.pos m) = Z.pos m).
  { unfold rne. rewrite (Z.mul_comm 4), Z.div_mul, Z.mod_mul by lia. reflexivity. }
  rewrite Hr. unfold finish.
  destruct (Z.eqb_spec (Z.pos m) (2 ^ 53)); [lia | ].
  destruct (Z.leb_spec e 971); [reflexivity | lia].
Qed.
End One.

(** * The power estimate grows with Q and with H *)

Section Growth.
Local Open Scope float_scope.

Lemma efficiency_positive (turbine : option string) :
  positive_finite
    (dict_get {[ "Pelton" := 0.915; "Francis" := 0.945; "Kaplan" := 0.94 ]} turbine 0.88).
Proof.
  destruct turbine as [label | ]; [ | apply positive_finite_intro; reflexivity].
  destruct (decide (label ∈ names)) as [Hin | Hout].
  - unfold names in Hin. rewrite !elem_of_cons, elem_of_nil in Hin.
    destruct table_known as (HP & HF & HK).
    destruct Hin as [-> | [-> | [-> | []]]];
      [rewrite HP | rewrite HF | rewrite HK]; apply positive_finite_intro; reflexivity.
  - rewrite (table_unknown label Hout). apply positive_finite_intro; reflexivity.
Qed.

(** Multiplying by one is exact, whatever the float. *)
Lemma mul_one (x : float) : x * 1 = x.
Proof.
  apply Prim2SF_inj. rewrite FloatAxioms.mul_spec.
  change (Prim2SF 1) with (S754_finite false (2 ^ 52)%positive (-52)).
  apply SFmul_one.
  destruct (Prim2SF x) eqn:E; try (left; rewrite <- E; apply valid_canon;
    [apply Prim2SF_valid | rewrite E; discriminate]).
  right. reflexivity.
Qed.

(** What is at least a positive float is positive. *)
Lemma positive_above (q t : float) :
  (0 <? q) = true -> (q <=? t) = true -> (0 <? t) = true.
Proof.
  rewrite !FloatAxioms.ltb_spec, FloatAxioms.leb_spec.
  change (Prim2SF 0) with (S754_zero false).
  destruct (Prim2SF q) as [[] | [] | | [] ? ?], (Prim2SF t) as [[] | [] | | [] ? ?];
    cbn; congruence.
Qed.

(** A positive float is positive finite or [+infinity]. *)
Lemma positive_cases (t : float) :
  (0 <? t) = true -> positive_finite t \/ Prim2SF t = S754_infinity false.
Proof.
  rewrite FloatAxioms.ltb_spec. change (Prim2SF 0) with (S754_zero false).
  destruct (Prim2SF t) as [[] | [] | | [] m e] eqn:E; cbn; try discriminate; intros _.
  - right. reflexivity.
  - left. exists m, e. exact E.
Qed.

(** A factor of at least one keeps a positive float positive: the product
    does not underflow to zero. *)
Lemma mul_positive (k q : float) :
  positive_finite k -> (1 <=? k) = true -> (0 <? q) = true -> (0 <? k * q) = true.
Proof.
  intros Hk H1 Hq. destruct (positive_cases q Hq) as [Pq | Iq].
  - apply positive_above with q; [exact Hq | ].
    rewrite <- (mul_one q) at 1.
    pose proof (mul_r_mono q 1 k Pq H1) as Hm.
    rewrite FloatAxioms.leb_spec, !FloatAxioms.mul_spec in *. unfold SF64mul in *.
    rewrite (SFmul_comm (Prim2SF q) (Prim2SF 1)). exact Hm.
  - destruct Hk as (m & e & Ek).
    rewrite FloatAxioms.ltb_spec, FloatAxioms.mul_spec, Ek, Iq. reflexivity.
Qed.

(** Multiplying two positive floats by a positive float, finite or not,
    keeps their order. *)
Lemma mul_l_mono_positive (t h1 h2 : float) :
  (0 <? t) = true -> (0 <? h1) = true -> (h1 <=? h2) = true ->
  (t * h1 <=? t * h2) = true.
Proof.
  intros Ht H1 Hle. destruct (positive_cases t Ht) as [Pt | It].
  - apply mul_l_mono; assumption.
  - pose proof (positive_above h1 h2 H1 Hle) as H2.
    rewrite FloatAxioms.leb_spec, !FloatAxioms.mul_spec, It.
    rewrite FloatAxioms.ltb_spec in H1, H2.
    change (Prim2SF 0) with (S754_zero false) in H1, H2.
    destruct (Prim2SF h1) as [[] | [] | | [] ? ?], (Prim2SF h2) as [[] | [] | | [] ? ?];
      try discriminate; reflexivity.
Qed.

Lemma power_formula_grows_with_Q (eta Q1 Q2 H : float) :
  positive_finite eta ->
  (0 <? H) = true -> is_finite H = true -> (Q1 <? Q2) = true ->
  (power_formula Q1 H eta <=? power_formula Q2 H eta) = true.
Proof.
  intros Heta Hpos Hfin Hlt. unfold power_formula.
  apply div_r_mono; [apply positive_finite_intro; reflexivity | ].
  apply mul_r_mono; [exact Heta | ].
  apply mul_r_mono; [apply positive_finite_intro; assumption | ].
  apply mul_l_mono; [apply positive_finite_intro; reflexivity | ].
  apply ltb_leb, Hlt.
Qed.

Lemma power_formula_grows_with_H (eta Q H1 H2 : float) :
  positive_finite eta ->
  (0 <? Q) = true -> (0 <? H1) = true -> (H1 <? H2) = true ->
  (power_formula Q H1 eta <=? power_formula Q H2 eta) = true.
Proof.
  intros Heta HQ H1pos Hlt. unfold power_formula.
  apply div_r_mono; [apply positive_finite_intro; reflexivity | ].
  apply mul_r_mono; [exact Heta | ].
  apply mul_l_mono_positive; [ | exact H1pos | apply ltb_leb, Hlt].
  apply mul_positive; [apply positive_finite_intro; reflexivity | reflexivity | exact HQ].
Qed.

(** The claim of strict growth, for every fixed H and every fixed Q, fails.
    With positive arguments, two neighbouring floats can round to the same
    power, so the growth is not strict.  Outside the positive arguments the
    power does not even grow weakly: it falls when Q grows at H < 0, and
    when H grows at Q < 0; and it is NaN, which is not above anything, where
    a zero meets an infinity: at H = 0 when 998 * 9.81 * Q overflows, at
    H = +infinity or H2 = +infinity when Q = 0, and at H1 = 0 when
    998 * 9.81 * Q overflows. *)
Lemma strict_growth_fails :
  ~ strictly_increasing TurbineChartGUI.calculate_power /\
  ~ strictly_increasing TurbineSelectionChart.calculate_power /\
  ((1 <? 2) = true /\
   TurbineChartGUI.calculate_power 1 0 (Some "Pelton") = 0 /\
   TurbineChartGUI.calculate_power 2 0 (Some "Pelton") = 0 /\
   TurbineChartGUI.calculate_power 0 1 (Some "Pelton") = 0 /\
   TurbineChartGUI.calculate_power 0 2 (Some "Pelton") = 0 /\
   (TurbineChartGUI.calculate_power 2 (-1) (Some "Pelton")
    <? TurbineChartGUI.calculate_power 1 (-1) (Some "Pelton")) = true) /\
  ((3 <? 3.0000000000000004) = true /\
   TurbineChartGUI.calculate_power 3 1 (Some "Pelton")
   = TurbineChartGUI.calculate_power 3.0000000000000004 1 (Some "Pelton") /\
   (500 <? 500.00000000000006) = true /\
   TurbineChartGUI.calculate_power 1 500 (Some "Pelton")
   = TurbineChartGUI.calculate_power 1 500.00000000000006 (Some "Pelton")) /\
  ((1 <? 2e304) = true /\ is_finite 2e304 = true /\
   (TurbineChartGUI.calculate_power 1 0 None
    <=? TurbineChartGUI.calculate_power 2e304 0 None) = false /\
   (0 <? 1) = true /\
   (TurbineChartGUI.calculate_power 0 infinity None
    <=? TurbineChartGUI.calculate_power 1 infinity None) = false) /\
  ((1 <? 2) = true /\
   (TurbineChartGUI.calculate_power (-1) 2 None
    <? TurbineChartGUI.calculate_power (-1) 1 None) = true /\
   (1 <? infinity) = true /\
   (TurbineChartGUI.calculate_power 0 1 None
    <=? TurbineChartGUI.calculate_power 0 infinity None) = false /\
   (0 <? 1e308) = true /\ is_finite 1e308 = true /\
   (TurbineChartGUI.calculate_power 1e308 0 None
    <=? TurbineChartGUI.calculate_power 1e308 1 None) = false).
Proof.
  repeat split; try (vm_compute; reflexivity).
  - intros [HQ _]. specialize (HQ 1 2 0 (Some "Pelton") eq_refl).
    vm_compute in HQ. discriminate.
  - intros [HQ _]. specialize (HQ 1 2 0 (Some "Pelton") eq_refl).
    vm_compute in HQ. discriminate.
Qed.

(** C6, amended: for a fixed turbine label (or none), the power estimate of
    either file does not decrease when Q grows, for every fixed finite
    H > 0, and does not decrease when H grows from a positive H1, for every
    fixed Q > 0. *)
Theorem calculate_power_grows (turbine : option string) :
  (forall Q1 Q2 H,
     (0 <? H) = true -> is_finite H = true -> (Q1 <? Q2) = true ->
     (TurbineChartGUI.calculate_power Q1 H turbine
      <=? TurbineChartGUI.calculate_power Q2 H turbine) = true /\
     (TurbineSelectionChart.calculate_power Q1 H turbine
      <=? TurbineSelectionChart.calculate_power Q2 H turbine) = true) /\
  (forall Q H1 H2,
     (0 <? Q) = true -> (0 <? H1) = true -> (H1 <? H2) = true ->
     (TurbineChartGUI.calculate_power Q H1 turbine
      <=? TurbineChartGUI.calculate_power Q H2 turbine) = true /\
     (TurbineSelectionChart.calculate_power Q H1 turbine
      <=? TurbineSelectionChart.calculate_power Q H2 turbine) = true).
Proof.
  pose proof (efficiency_positive turbine) as Heta.
  split.
  - intros Q1 Q2 H Hpos Hfin Hlt.
    split; apply (power_formula_grows_with_Q _ Q1 Q2 H Heta Hpos Hfin Hlt).
  - intros Q H1 H2 HQ H1pos Hlt.
    split; apply (power_formula_grows_with_H _ Q H1 H2 Heta HQ H1pos Hlt).
Qed.

Lemma calculate_power_grows_witness :
  ((TurbineChartGUI.calculate_power 1 10 (Some "Francis")
    <=? TurbineChartGUI.calculate_power 2 10 (Some "Francis")) = true /\
   (TurbineSelectionChart.calculate_power 1 10 (Some "Francis")
    <=? TurbineSelectionChart.calculate_power 2 10 (Some "Francis")) = true) /\
  ((TurbineChartGUI.calculate_power 1 10 (Some "Francis")
    <=? TurbineChartGUI.calculate_power 1 20 (Some "Francis")) = true /\
   (TurbineSelectionChart.calculate_power 1 10 (Some "Francis")
    <=? TurbineSelectionChart.calculate_power 1 20 (Some "Francis")) = true).
Proof.
  split.
  - apply (proj1 (calculate_power_grows (Some "Francis")) 1 2 10); reflexivity.
  - apply (proj2 (calculate_power_grows (Some "Francis")) 1 10 20); reflexivity.
Defined.

End Growth.

(** ** Drawing the envelopes *)

Lemma colour_known (name : string) :
  (name ∈ names ->
   exists c, getitem ({[ "Pelton" := "#2ca02c"; "Francis" := "#1f77b4";
                         "Kaplan" := "#ff7f0e" ]} : gmap string string) name = Ok c) /\
  (name ∉ names ->
   getitem ({[ "Pelton" := "#2ca02c"; "Francis" := "#1f77b4"; "Kaplan" := "#ff7f0e" ]}
              : gmap string string) name = Raise KeyError).
Proof.
  unfold getitem, names. split.
  - intros Hin. rewrite !elem_of_cons, elem_of_nil in Hin.
    destruct Hin as [-> | [-> | [-> | []]]]; eexists; reflexivity.
  - intros Hout. rewrite !not_elem_of_cons in Hout. destruct Hout as (HP & HF & HK & _).
    rewrite !lookup_insert_ne, lookup_singleton_ne by congruence. reflexivity.
Qed.

Lemma plot_envelopes_foldl envelopes :
  TurbineChartGUI.plot_envelopes envelopes = foldl plot_envelope (Ok []) envelopes /\
  TurbineSelectionChart.plot_envelopes envelopes = foldl plot_envelope (Ok []) envelopes.
Proof.
  assert (Hstep : forall acc entry,
    (let '(name, pts) := entry in
     paths ← acc; p0 ← index0 pts;
     _ ← getitem ({[ "Pelton" := "#2ca02c"; "Francis" := "#1f77b4";
                     "Kaplan" := "#ff7f0e" ]} : gmap string string) name;
     Ok (dict_set paths name {| vertices := (pts ++ [p0])%list |}))
    = plot_envelope acc entry).
  { intros [paths | e] [name pts]; [ | reflexivity].
    unfold plot_envelope. cbn [mbind result_bind fst snd].
    destruct pts as [ | p0 pts]; [reflexivity | ].
    cbn [index0 mbind result_bind].
    destruct (decide (name ∈ names)) as [Hin | Hout];
      [destruct (proj1 (colour_known name) Hin) as [c ->]
      | rewrite (proj2 (colour_known name) Hout)]; reflexivity. }
  unfold TurbineChartGUI.plot_envelopes, TurbineSelectionChart.plot_envelopes. cbv zeta.
  split; generalize (Ok [] : result (list (string * Path)));
    induction envelopes as [ | entry envelopes IH]; intros acc; cbn [foldl];
    [reflexivity | rewrite <- Hstep; apply IH | reflexivity | rewrite <- Hstep; apply IH].
Qed.

Lemma plot_envelope_raise e envelopes : foldl plot_envelope (Raise e) envelopes = Raise e.
Proof. induction envelopes as [ | entry envelopes IH]; [reflexivity | exact IH]. Qed.

Lemma plot_envelope_drawable paths entry :
  drawable entry ->
  plot_envelope (Ok paths) entry = Ok (dict_set paths entry.1 (closed_path entry).2).
Proof.
  intros [Hpts Hname]. unfold plot_envelope.
  destruct (entry.2) as [ | p0 pts] eqn:E; [contradiction | ].
  destruct (decide (entry.1 ∈ names)); [ | contradiction].
  unfold closed_path. rewrite E. reflexivity.
Qed.

Lemma plot_envelope_offending paths entry :
  ~ drawable entry ->
  plot_envelope (Ok paths) entry
  = Raise (match entry.2 with [] => IndexError | _ :: _ => KeyError end).
Proof.
  intros Hbad. unfold plot_envelope, drawable in *.
  destruct (entry.2) as [ | p0 pts]; [reflexivity | ].
  destruct (decide (entry.1 ∈ names)) as [Hin | Hout]; [ | reflexivity].
  exfalso. apply Hbad. split; [discriminate | exact Hin].
Qed.

Lemma drawable_dec entry : {drawable entry} + {~ drawable entry}.
Proof.
  unfold drawable. destruct (entry.2) as [ | p0 pts].
  - right. intros [H _]. apply H. reflexivity.
  - destruct (decide (entry.1 ∈ names)) as [Hin | Hout].
    + left. split; [discriminate | exact Hin].
    + right. intros [_ H]. contradiction.
Qed.

Lemma foldl_plot_envelope_ok envelopes : forall acc,
  (exists paths, foldl plot_envelope (Ok acc) envelopes = Ok paths)
  <-> Forall drawable envelopes.
Proof.
  induction envelopes as [ | entry envelopes IH]; intros acc; cbn [foldl].
  - split; [constructor | eauto].
  - destruct (drawable_dec entry) as [Hgood | Hbad].
    + rewrite (plot_envelope_drawable _ _ Hgood), IH.
      split; [intros Hall; constructor; assumption | intros Hall; inversion Hall; assumption].
    + rewrite (plot_envelope_offending _ _ Hbad), plot_envelope_raise.
      split; [intros [paths Hp]; discriminate | intros Hall; inversion Hall; contradiction].
Qed.

(** X1: [plot_envelopes] returns paths exactly when every envelope of the
    table has at least one vertex and one of the three names that have a
    colour. *)
Theorem plot_envelopes_succeeds_iff (envelopes : list (string * list (float * float))) :
  ((exists paths, TurbineChartGUI.plot_envelopes envelopes = Ok paths)
   <-> Forall drawable envelopes) /\
  ((exists paths, TurbineSelectionChart.plot_envelopes envelopes = Ok paths)
   <-> Forall drawable envelopes).
Proof.
  destruct (plot_envelopes_foldl envelopes) as [-> ->].
  split; apply foldl_plot_envelope_ok.
Qed.

Lemma foldl_plot_envelope_offending good entry rest : forall acc,
  Forall drawable good -> ~ drawable entry ->
  foldl plot_envelope (Ok acc) (good ++ entry :: rest)
  = Raise (match entry.2 with [] => IndexError | _ :: _ => KeyError end).
Proof.
  induction good as [ | g good IH]; intros acc Hgood Hbad; cbn [foldl app].
  - rewrite (plot_envelope_offending _ _ Hbad). apply plot_envelope_raise.
  - inversion Hgood as [ | ? ? Hg Hrest]; subst.
    rewrite (plot_envelope_drawable _ _ Hg). apply IH; assumption.
Qed.

(** X2: the first envelope that cannot be drawn decides the exception, and
    nothing after it is looked at: [IndexError] when it has no vertex (its
    name is not looked up), [KeyError] when it has vertices but a name
    without a colour. *)
Theorem plot_envelopes_first_offender
    (good : list (string * list (float * float)))
    (entry : string * list (float * float))
    (rest : list (string * list (float * float))) :
  Forall drawable good -> ~ drawable entry ->
  TurbineChartGUI.plot_envelopes (good ++ entry :: rest)
  = Raise (match entry.2 with [] => IndexError | _ :: _ => KeyError end) /\
  TurbineSelectionChart.plot_envelopes (good ++ entry :: rest)
  = Raise (match entry.2 with [] => IndexError | _ :: _ => KeyError end).
Proof.
  intros Hgood Hbad.
  destruct (plot_envelopes_foldl (good ++ entry :: rest)) as [-> ->].
  split; apply foldl_plot_envelope_offending; assumption.
Qed.

Lemma plot_envelopes_first_offender_witness :
  TurbineChartGUI.plot_envelopes
    ([("Pelton", [(1, 2)%float])] ++ ("Turgo", []) :: [("Kaplan", [])])
  = Raise IndexError /\
  TurbineSelectionChart.plot_envelopes
    ([("Pelton", [(1, 2)%float])] ++ ("Turgo", []) :: [("Kaplan", [])])
  = Raise IndexError.
Proof.
  apply (plot_envelopes_first_offender [("Pelton", [(1, 2)%float])] ("Turgo", [])
           [("Kaplan", [])]).
  - constructor; [split; [discriminate | compute_done] | constructor].
  - intros [H _]. apply H. reflexivity.
Defined.

Lemma dict_set_fresh {A} (d : list (string * A)) (k : string) (v : A) :
  k ∉ d.*1 -> dict_set d k v = (d ++ [(k, v)])%list.
Proof.
  induction d as [ | [k' v'] d IH]; intros Hk; cbn [dict_set app]; [reflexivity | ].
  cbn [fmap list_fmap fst] in Hk. rewrite not_elem_of_cons in Hk. destruct Hk as [Hne Hk].
  destruct (decide (k' = k)) as [-> | _]; [contradiction | ].
  rewrite IH by exact Hk. reflexivity.
Qed.

Lemma foldl_plot_envelope_distinct envelopes : forall acc,
  Forall drawable envelopes -> NoDup (acc.*1 ++ envelopes.*1) ->
  foldl plot_envelope (Ok acc) envelopes = Ok (acc ++ (closed_path <$> envelopes))%list.
Proof.
  induction envelopes as [ | entry envelopes IH]; intros acc Hall Hnd; cbn [foldl].
  - rewrite app_nil_r. reflexivity.
  - inversion Hall as [ | ? ? Hg Hrest]; subst.
    rewrite (plot_envelope_drawable _ _ Hg).
    cbn [fmap list_fmap] in Hnd.
    apply NoDup_app in Hnd as (Hacc & Hdisj & Hnd').
    apply NoDup_cons in Hnd' as [Hfresh Hnd'].
    rewrite dict_set_fresh by (intros Hin; apply (Hdisj _ Hin); left).
    rewrite IH.
    + rewrite <- app_assoc. reflexivity.
    + exact Hrest.
    + rewrite fmap_app. cbn [fmap list_fmap]. rewrite <- app_assoc. cbn [app].
      apply NoDup_app. split; [exact Hacc | split; [ | constructor; assumption]].
      intros x Hx Hin. apply (Hdisj x Hx). exact Hin.
Qed.

(** X3: for a table whose envelopes can all be drawn (its names are distinct,
    as the keys of a dict are), [plot_envelopes] returns one path per
    envelope, under the same name and in the same order; each path is the
    vertex list followed by its first vertex, so it ends where it starts and
    has one vertex more than the envelope. *)
Theorem plot_envelopes_closes_each
    (envelopes : list (string * list (float * float))) :
  Forall drawable envelopes -> NoDup envelopes.*1 ->
  TurbineChartGUI.plot_envelopes envelopes = Ok (closed_path <$> envelopes) /\
  TurbineSelectionChart.plot_envelopes envelopes = Ok (closed_path <$> envelopes) /\
  Forall (fun entry =>
            head (vertices (closed_path entry).2) = last (vertices (closed_path entry).2) /\
            length (vertices (closed_path entry).2) = S (length entry.2) /\
            take (length entry.2) (vertices (closed_path entry).2) = entry.2)
         envelopes.
Proof.
  intros Hall Hnd.
  destruct (plot_envelopes_foldl envelopes) as [-> ->].
  rewrite (foldl_plot_envelope_distinct envelopes [] Hall Hnd).
  repeat split.
  apply Forall_forall. intros [name pts] Hin. cbn [closed_path fst snd vertices].
  rewrite Forall_forall in Hall. destruct (Hall _ Hin) as [Hpts _]. cbn [snd] in Hpts.
  destruct pts as [ | p0 pts]; [contradiction | ]. cbn [closed_polygon].
  repeat split.
  - rewrite last_app. reflexivity.
  - rewrite length_app. cbn [length]. lia.
  - rewrite take_app_length. reflexivity.
Qed.

Lemma plot_envelopes_closes_each_witness :
  TurbineChartGUI.plot_envelopes TurbineChartGUI.define_envelopes
  = Ok (closed_path <$> TurbineChartGUI.define_envelopes) /\
  TurbineSelectionChart.plot_envelopes TurbineChartGUI.define_envelopes
  = Ok (closed_path <$> TurbineChartGUI.define_envelopes) /\
  Forall (fun entry =>
            head (vertices (closed_path entry).2) = last (vertices (closed_path entry).2) /\
            length (vertices (closed_path entry).2) = S (length entry.2) /\
            take (length entry.2) (vertices (closed_path entry).2) = entry.2)
         TurbineChartGUI.define_envelopes.
Proof.
  apply (plot_envelopes_closes_each TurbineChartGUI.define_envelopes).
  - repeat (constructor; [split; [discriminate | compute_done] | ]). constructor.
  - compute_done.
Defined.

(** X4: whatever the point, both files complete with the chart of the names
    whose path [contains_point] accepts for it: the point itself, one line
    per such name with the power of that turbine, in the order Pelton,
    Francis, Kaplan, and the same names in the title; with no such name, the
    default power and "None". *)
Theorem chart_lists_containing_envelopes {C : Containment} (Q H : float) :
  TurbineChartGUI.create_plot Q H
  = Ok (chart_for TurbineChartGUI.calculate_power Q H
          (List.filter (fun n => inside TurbineChartGUI.define_envelopes n Q H) names)) /\
  (forall (B : Builtins) (q_line h_line : string),
     float_of_str q_line = Some Q -> float_of_str h_line = Some H ->
     TurbineSelectionChart.main q_line h_line
     = Ok (chart_for TurbineSelectionChart.calculate_power Q H
             (List.filter (fun n => inside TurbineSelectionChart.define_envelopes n Q H)
                names))).
Proof.
  destruct paths_built as [Hgui Hscript].
  split.
  - unfold TurbineChartGUI.create_plot. cbv zeta. rewrite Hgui. cbn [mbind result_bind].
    destruct (suitable_filter TurbineChartGUI.define_envelopes Q H) as [-> _].
    unfold names. cbn [List.filter].
    destruct (inside _ "Pelton" Q H), (inside _ "Francis" Q H), (inside _ "Kaplan" Q H);
      reflexivity.
  - intros B q_line h_line Hq Hh.
    unfold TurbineSelectionChart.main, py_float. cbv zeta.
    rewrite Hscript, Hq, Hh. cbn [mbind result_bind].
    destruct (suitable_filter TurbineSelectionChart.define_envelopes Q H) as [_ ->].
    unfold names. cbn [List.filter].
    destruct (inside _ "Pelton" Q H), (inside _ "Francis" Q H), (inside _ "Kaplan" Q H);
      reflexivity.
Qed.

(** ** Signs and the order of the efficiencies *)

Section Signs.
Local Open Scope float_scope.

Lemma SFopp_set_sign s r : SFopp (set_sign s r) = set_sign (negb s) r.
Proof. destruct r; reflexivity. Qed.

Lemma SFmul_opp_l x y : SFmul prec emax (SFopp x) y = SFopp (SFmul prec emax x y).
Proof.
  destruct x as [sx | sx | | sx mx ex], y as [sy | sy | | sy my ey]; cbn [SFmul SFopp];
    try reflexivity; try (destruct sx, sy; reflexivity).
  rewrite (binary_round_aux_sign (xorb (negb sx) sy)),
    (binary_round_aux_sign (xorb sx sy)), SFopp_set_sign.
  destruct sx, sy; reflexivity.
Qed.

Lemma SFdiv_opp_l x y : SFdiv prec emax (SFopp x) y = SFopp (SFdiv prec emax x y).
Proof.
  destruct x as [sx | sx | | sx mx ex], y as [sy | sy | | sy my ey]; cbn [SFdiv SFopp];
    try reflexivity; try (destruct sx, sy; reflexivity).
  destruct (SFdiv_core_binary prec emax (Z.pos mx) ex (Z.pos my) ey) as [[mz ez] lz].
  rewrite (binary_round_aux_sign (xorb (negb sx) sy)),
    (binary_round_aux_sign (xorb sx sy)), SFopp_set_sign.
  destruct sx, sy; reflexivity.
Qed.

Lemma mul_opp_l (x y : float) : (- x) * y = - (x * y).
Proof.
  apply Prim2SF_inj.
  rewrite FloatAxioms.mul_spec, !FloatAxioms.opp_spec, FloatAxioms.mul_spec.
  apply SFmul_opp_l.
Qed.

Lemma mul_opp_r (x y : float) : x * (- y) = - (x * y).
Proof.
  apply Prim2SF_inj.
  rewrite FloatAxioms.mul_spec, !FloatAxioms.opp_spec, FloatAxioms.mul_spec.
  unfold SF64mul. rewrite SFmul_comm, SFmul_opp_l, SFmul_comm. reflexivity.
Qed.

Lemma div_opp_l (x y : float) : (- x) / y = - (x / y).
Proof.
  apply Prim2SF_inj.
  rewrite FloatAxioms.div_spec, !FloatAxioms.opp_spec, FloatAxioms.div_spec.
  apply SFdiv_opp_l.
Qed.

(** X5: the power estimate is odd in Q and in H: changing the sign of the
    flow, or of the head, changes the sign of the power and nothing else,
    rounding included. *)
Theorem calculate_power_odd (Q H : float) (turbine : option string) :
  TurbineChartGUI.calculate_power (- Q) H turbine
  = - TurbineChartGUI.calculate_power Q H turbine /\
  TurbineChartGUI.calculate_power Q (- H) turbine
  = - TurbineChartGUI.calculate_power Q H turbine /\
  TurbineSelectionChart.calculate_power (- Q) H turbine
  = - TurbineSelectionChart.calculate_power Q H turbine /\
  TurbineSelectionChart.calculate_power Q (- H) turbine
  = - TurbineSelectionChart.calculate_power Q H turbine.
Proof.
  unfold TurbineChartGUI.calculate_power, TurbineSelectionChart.calculate_power.
  cbv zeta.
  repeat split;
    rewrite ?mul_opp_r, ?mul_opp_l, ?div_opp_l; reflexivity.
Qed.

Lemma positive_finite_not_negative (c : float) : positive_finite c -> not_negative c.
Proof.
  intros (m & e & E). split.
  - rewrite E. apply (positive_finite_canon c), E.
  - rewrite E. reflexivity.
Qed.

Lemma not_negative_mul_r (t c : float) :
  not_negative t -> positive_finite c -> not_negative (t * c).
Proof.
  intros [Ct St] (m & e & Ec).
  pose proof (SFmul_odd_monotone m e (positive_finite_canon c m e Ec)) as HF.
  unfold not_negative. rewrite FloatAxioms.mul_spec, Ec.
  split; [exact (om_canon _ HF _ Ct) | ].
  etransitivity; [exact (om_sgn _ HF _ Ct) | exact St].
Qed.

Lemma not_negative_mul_l (c t : float) :
  positive_finite c -> not_negative t -> not_negative (c * t).
Proof.
  intros Hc Ht. pose proof (not_negative_mul_r t c Ht Hc) as [Cm Sm].
  unfold not_negative. rewrite FloatAxioms.mul_spec in *. unfold SF64mul in *.
  rewrite SFmul_comm. split; assumption.
Qed.

Lemma not_negative_div_r (t c : float) :
  not_negative t -> positive_finite c -> not_negative (t / c).
Proof.
  intros [Ct St] (m & e & Ec).
  pose proof (SFdiv_odd_monotone m e) as HF.
  unfold not_negative. rewrite FloatAxioms.div_spec, Ec.
  split; [exact (om_canon _ HF _ Ct) | ].
  etransitivity; [exact (om_sgn _ HF _ Ct) | exact St].
Qed.

Lemma not_negative_leb (t : float) : not_negative t -> (0 <=? t) = true.
Proof.
  intros [Ct St]. rewrite FloatAxioms.leb_spec.
  change (Prim2SF 0) with (S754_zero false).
  destruct (Prim2SF t) as [s | s | | s m e]; cbn [sgn] in St; subst;
    [reflexivity | reflexivity | destruct Ct | reflexivity].
Qed.

(** Multiplying on the left by a float that is not negative is monotone on
    the positive finite floats. *)
Lemma mul_l_mono_not_negative (t h1 h2 : float) :
  not_negative t -> positive_finite h1 -> positive_finite h2 ->
  (h1 <=? h2) = true -> (t * h1 <=? t * h2) = true.
Proof.
  intros [Ct St] (m1 & e1 & E1) (m2 & e2 & E2) Hle.
  destruct (Prim2SF t) as [s | s | | s m e] eqn:Et; cbn [sgn] in St; subst;
    [ | | destruct Ct | ].
  - rewrite FloatAxioms.leb_spec, !FloatAxioms.mul_spec, Et, E1, E2. reflexivity.
  - rewrite FloatAxioms.leb_spec, !FloatAxioms.mul_spec, Et, E1, E2. reflexivity.
  - apply mul_l_mono; [exists m, e; exact Et | exact Hle].
Qed.

Lemma power_formula_not_negative (Q H eta : float) :
  positive_finite Q -> positive_finite H -> positive_finite eta ->
  not_negative (power_formula Q H eta).
Proof.
  intros HQ HH Heta. unfold power_formula.
  apply not_negative_div_r; [ | apply positive_finite_intro; reflexivity].
  apply not_negative_mul_r; [ | exact Heta].
  apply not_negative_mul_r; [ | exact HH].
  apply not_negative_mul_l; [apply positive_finite_intro; reflexivity | ].
  apply positive_finite_not_negative, HQ.
Qed.

Lemma power_formula_grows_with_eta (Q H eta1 eta2 : float) :
  positive_finite Q -> positive_finite H ->
  positive_finite eta1 -> positive_finite eta2 -> (eta1 <=? eta2) = true ->
  (power_formula Q H eta1 <=? power_formula Q H eta2) = true.
Proof.
  intros HQ HH H1 H2 Hle. unfold power_formula.
  apply div_r_mono; [apply positive_finite_intro; reflexivity | ].
  apply mul_l_mono_not_negative; try assumption.
  apply not_negative_mul_r; [ | exact HH].
  apply not_negative_mul_l; [apply positive_finite_intro; reflexivity | ].
  apply positive_finite_not_negative, HQ.
Qed.

(** X6: for a positive finite flow and head the power estimate is never NaN
    and never negative, whatever the label. *)
Theorem calculate_power_not_negative (Q H : float) (turbine : option string) :
  (0 <? Q) = true -> is_finite Q = true -> (0 <? H) = true -> is_finite H = true ->
  (0 <=? TurbineChartGUI.calculate_power Q H turbine) = true /\
  (0 <=? TurbineSelectionChart.calculate_power Q H turbine) = true.
Proof.
  intros HQ HQf HH HHf.
  pose proof (power_formula_not_negative Q H _
                (positive_finite_intro Q HQ HQf) (positive_finite_intro H HH HHf)
                (efficiency_positive turbine)) as Hnn.
  split; apply not_negative_leb; exact Hnn.
Qed.

Lemma calculate_power_not_negative_witness :
  (0 <=? TurbineChartGUI.calculate_power 0.05 500 (Some "Pelton")) = true /\
  (0 <=? TurbineSelectionChart.calculate_power 0.05 500 (Some "Pelton")) = true.
Proof.
  apply (calculate_power_not_negative 0.05 500 (Some "Pelton")); reflexivity.
Defined.

(** X7: for a positive finite flow and head, the default power (no label, or
    an unknown one) is at most the power of any of the three turbines, and
    the three are ordered as their efficiencies: Pelton, Kaplan, Francis. *)
Theorem calculate_power_ordered_by_efficiency (Q H : float) :
  (0 <? Q) = true -> is_finite Q = true -> (0 <? H) = true -> is_finite H = true ->
  ((TurbineChartGUI.calculate_power Q H None
    <=? TurbineChartGUI.calculate_power Q H (Some "Pelton")) = true /\
   (TurbineChartGUI.calculate_power Q H (Some "Pelton")
    <=? TurbineChartGUI.calculate_power Q H (Some "Kaplan")) = true /\
   (TurbineChartGUI.calculate_power Q H (Some "Kaplan")
    <=? TurbineChartGUI.calculate_power Q H (Some "Francis")) = true) /\
  ((TurbineSelectionChart.calculate_power Q H None
    <=? TurbineSelectionChart.calculate_power Q H (Some "Pelton")) = true /\
   (TurbineSelectionChart.calculate_power Q H (Some "Pelton")
    <=? TurbineSelectionChart.calculate_power Q H (Some "Kaplan")) = true /\
   (TurbineSelectionChart.calculate_power Q H (Some "Kaplan")
    <=? TurbineSelectionChart.calculate_power Q H (Some "Francis")) = true).
Proof.
  intros HQ HQf HH HHf.
  pose proof (positive_finite_intro Q HQ HQf) as PQ.
  pose proof (positive_finite_intro H HH HHf) as PH.
  assert (Hstep : forall t1 t2 : option string,
    (dict_get {[ "Pelton" := 0.915; "Francis" := 0.945; "Kaplan" := 0.94 ]} t1 0.88
     <=? dict_get {[ "Pelton" := 0.915; "Francis" := 0.945; "Kaplan" := 0.94 ]} t2 0.88)
    = true ->
    (TurbineChartGUI.calculate_power Q H t1
     <=? TurbineChartGUI.calculate_power Q H t2) = true).
  { intros t1 t2 Hle.
    apply (power_formula_grows_with_eta Q H _ _ PQ PH
             (efficiency_positive t1) (efficiency_positive t2) Hle). }
  repeat split; apply Hstep; vm_compute; reflexivity.
Qed.

Lemma calculate_power_ordered_by_efficiency_witness :
  ((TurbineChartGUI.calculate_power 3 200 None
    <=? TurbineChartGUI.calculate_power 3 200 (Some "Pelton")) = true /\
   (TurbineChartGUI.calculate_power 3 200 (Some "Pelton")
    <=? TurbineChartGUI.calculate_power 3 200 (Some "Kaplan")) = true /\
   (TurbineChartGUI.calculate_power 3 200 (Some "Kaplan")
    <=? TurbineChartGUI.calculate_power 3 200 (Some "Francis")) = true) /\
  ((TurbineSelectionChart.calculate_power 3 200 None
    <=? TurbineSelectionChart.calculate_power 3 200 (Some "Pelton")) = true /\
   (TurbineSelectionChart.calculate_power 3 200 (Some "Pelton")
    <=? TurbineSelectionChart.calculate_power 3 200 (Some "Kaplan")) = true /\
   (TurbineSelectionChart.calculate_power 3 200 (Some "Kaplan")
    <=? TurbineSelectionChart.calculate_power 3 200 (Some "Francis")) = true).
Proof.
  apply (calculate_power_ordered_by_efficiency 3 200); reflexivity.
Defined.

End Signs.

(** ** The prompts of the script *)

(** X8: the script asks for Q, reads one line, and only if that line is a
    number asks for H and reads a second line; a first line that is not a
    number ends the run with [ValueError] before the second prompt, and
    the second line stays unread.  With two lines read, the run ends as
    [main] does on them. *)
Theorem main_reads_flow_then_head {B : Builtins} {C : Containment}
    (q_line h_line : string) (rest out : list string) :
  main_on_console {| stdin := q_line :: h_line :: rest; stdout := out |}
  = match float_of_str q_line with
    | None =>
        ({| stdin := h_line :: rest;
            stdout := out ++ ["  Enter flow rate Q (m³/s): "] |},
         inr (Exception ValueError))
    | Some _ =>
        ({| stdin := rest;
            stdout := out ++ ["  Enter flow rate Q (m³/s): "; "  Enter head H (m): "] |},
         match TurbineSelectionChart.main q_line h_line with
         | Ok c => inl c
         | Raise e => inr (Exception e)
         end)
    end.
Proof.
  destruct paths_built as [_ Hscript].
  unfold main_on_console, TurbineSelectionChart.main, py_float. cbv zeta.
  rewrite Hscript.
  unfold mbind, run_bind, silent, input. cbn [stdin stdout result_bind].
  destruct (float_of_str q_line) as [Q | ]; [ | reflexivity].
  cbn [stdin stdout]. rewrite <- app_assoc. cbn [app].
  destruct (float_of_str h_line) as [H | ]; [ | reflexivity].
  cbn [result_bind].
  destruct (TurbineSelectionChart.suitable _ Q H); reflexivity.
Qed.

(** X9: at the end of the input the script ends with [EOFError], after the
    prompt it could not get an answer to: the first prompt when there is no
    line at all, the second when there is one line and it is a number. *)
Theorem main_at_end_of_input {B : Builtins} {C : Containment}
    (q_line : string) (out : list string) :
  main_on_console {| stdin := []; stdout := out |}
  = ({| stdin := []; stdout := out ++ ["  Enter flow rate Q (m³/s): "] |}, inr EOFError) /\
  main_on_console {| stdin := [q_line]; stdout := out |}
  = match float_of_str q_line with
    | None =>
        ({| stdin := []; stdout := out ++ ["  Enter flow rate Q (m³/s): "] |},
         inr (Exception ValueError))
    | Some _ =>
        ({| stdin := [];
            stdout := out ++ ["  Enter flow rate Q (m³/s): "; "  Enter head H (m): "] |},
         inr EOFError)
    end.
Proof.
  destruct paths_built as [_ Hscript].
  unfold main_on_console, py_float. cbv zeta. rewrite Hscript.
  unfold mbind, run_bind, silent, input. cbn [stdin stdout].
  split; [reflexivity | ].
  destruct (float_of_str q_line) as [Q | ]; [ | reflexivity].
  cbn [stdin stdout]. rewrite <- app_assoc. reflexivity.
Qed.

(** ** The constant-power curves *)

Section Order.
Local Open Scope float_scope.

Lemma leb_trans (x y z : float) :
  (x <=? y) = true -> (y <=? z) = true -> (x <=? z) = true.
Proof.
  intros Hxy Hyz.
  destruct (leb_srk x y Hxy) as (Cx & Cy & Sxy).
  destruct (leb_srk y z Hyz) as (_ & Cz & Syz).
  apply srk_leb; try assumption. lia.
Qed.

(** Multiplying a float that is at least zero by a larger positive factor
    does not give less. *)
Lemma mul_l_mono_from_zero (t h1 h2 : float) :
  (0 <=? t) = true -> positive_finite h1 -> positive_finite h2 ->
  (h1 <=? h2) = true -> (t * h1 <=? t * h2) = true.
Proof.
  intros Ht (m1 & e1 & E1) (m2 & e2 & E2) Hle.
  pose proof Ht as Ht'. rewrite FloatAxioms.leb_spec in Ht'.
  change (Prim2SF 0) with (S754_zero false) in Ht'.
  destruct (Prim2SF t) as [s | s | | s m e] eqn:Et; try discriminate.
  - rewrite FloatAxioms.leb_spec, !FloatAxioms.mul_spec, Et, E1, E2. reflexivity.
  - destruct s; [discriminate | ].
    rewrite FloatAxioms.leb_spec, !FloatAxioms.mul_spec, Et, E1, E2. reflexivity.
  - destruct s; [discriminate | ].
    apply mul_l_mono; [exists m, e; exact Et | exact Hle].
Qed.

Lemma grows_by_a_tenth (t : float) : (0 <=? t) = true -> (t <=? t * 1.1) = true.
Proof.
  intros Ht. rewrite <- (mul_one t) at 1.
  apply mul_l_mono_from_zero; [exact Ht | | | reflexivity];
    apply positive_finite_intro; reflexivity.
Qed.

Lemma shrinks_by_a_tenth (t : float) : (0 <=? t) = true -> (t * 0.9 <=? t) = true.
Proof.
  intros Ht. rewrite <- (mul_one t) at 2.
  apply mul_l_mono_from_zero; [exact Ht | | | reflexivity];
    apply positive_finite_intro; reflexivity.
Qed.
End Order.

Section PowerCurves.
Local Open Scope float_scope.

Lemma mask_in_view (g : float -> float -> bool) (Q H : list float) :
  Forall (fun p => g p.2 p.1 = true)
         (zip (mask Q (zip_with g H Q)) (mask H (zip_with g H Q)))
  /\ length (mask Q (zip_with g H Q)) = length (mask H (zip_with g H Q)).
Proof.
  revert H. induction Q as [ | q Q IH]; intros [ | h H]; cbn; try (split; [constructor | reflexivity]).
  destruct (IH H) as [IH1 IH2].
  destruct (g h q) eqn:E; cbn; [ | split; assumption].
  split; [constructor; [exact E | exact IH1] | congruence].
Qed.

Lemma np_any_mask (Q : list float) (m : list bool) :
  np_any (mask Q m) = true -> np_any_bool m = true.
Proof.
  revert m. induction Q as [ | q Q IH]; intros [ | [] m]; cbn; try congruence; auto.
Qed.

Lemma positive_not_zero (x q : float) :
  (0 <? x) = true -> (x <=? q) = true -> (q =? 0) = false.
Proof.
  rewrite FloatAxioms.ltb_spec, FloatAxioms.leb_spec, FloatAxioms.eqb_spec.
  change (Prim2SF 0) with (S754_zero false).
  destruct (Prim2SF x) as [[] | [] | | [] ? ?], (Prim2SF q) as [[] | [] | | [] ? ?];
    cbn; congruence.
Qed.

Lemma np_any_bool_mask (g : float -> float -> bool) (Q H : list float) :
  (forall h q, g h q = true -> (q =? 0) = false) ->
  np_any (mask Q (zip_with g H Q)) = np_any_bool (zip_with g H Q).
Proof.
  intros Hg. revert H. induction Q as [ | q Q IH]; intros [ | h H]; cbn; try reflexivity.
  destruct (g h q) eqn:E; cbn; [ | apply IH].
  rewrite (Hg _ _ E). reflexivity.
Qed.

Lemma filter_flat_map {A B} (p : B -> bool) (f : A -> list B) (l : list A) :
  List.filter p (flat_map f l) = flat_map (fun x => List.filter p (f x)) l.
Proof.
  induction l as [ | x l IH]; cbn; [reflexivity | ].
  rewrite List.filter_app, IH. reflexivity.
Qed.

Lemma flat_map_sublist {A B} (f g : A -> list B) (l : list A) :
  (forall x, f x `sublist_of` g x) -> flat_map f l `sublist_of` flat_map g l.
Proof.
  intros Hfg. induction l as [ | x l IH]; cbn; [constructor | ].
  apply sublist_app; [apply Hfg | exact IH].
Qed.

Lemma flat_map_ext_all {A B} (f g : A -> list B) (l : list A) :
  (forall x, f x = g x) -> flat_map f l = flat_map g l.
Proof.
  intros Hfg. induction l as [ | x l IH]; cbn; [reflexivity | ].
  rewrite Hfg, IH. reflexivity.
Qed.

Lemma in_view_within (x_min x_max y_min y_max : float) (p : float * float) :
  (y_min <=? p.2) && (p.2 <=? y_max) && (x_min <=? p.1) && (p.1 <=? x_max) = true ->
  within (x_min, x_max) (y_min, y_max) p.
Proof.
  rewrite !andb_true_iff. unfold within. cbn. tauto.
Qed.

Lemma label_from_left_within (x_min x_max y_min y_max : float) text rotation samples d :
  (0 <=? x_min) = true -> (0 <=? y_min) = true ->
  TurbineSelectionChart.label_from_left x_min x_max y_min y_max text rotation samples = Some d ->
  Forall (within (x_min, x_max) (y_min, y_max)) (points d).
Proof.
  intros Hx Hy. induction samples as [ | [q h] rest IH]; cbn; [congruence | ].
  destruct ((x_min <=? q) && (q <=? x_max) && ((y_min <=? h) && (h <=? y_max))) eqn:V;
    [ | exact IH].
  destruct ((q * 1.1 <? x_max) && (h * 1.1 <? y_max)) eqn:L; [ | exact IH].
  intros [= <-]. cbn.
  rewrite !andb_true_iff in V. rewrite !andb_true_iff in L.
  destruct V as [[V1 V2] [V3 V4]], L as [L1 L2].
  constructor; [ | constructor].
  repeat split; cbn.
  - apply leb_trans with q; [exact V1 | ].
    apply grows_by_a_tenth, leb_trans with x_min; assumption.
  - apply ltb_leb, L1.
  - apply leb_trans with h; [exact V3 | ].
    apply grows_by_a_tenth, leb_trans with y_min; assumption.
  - apply ltb_leb, L2.
Qed.

Lemma label_from_right_within (x_min x_max y_min y_max : float) text rotation samples d :
  (0 <=? x_min) = true -> (0 <=? y_min) = true ->
  TurbineSelectionChart.label_from_right x_min x_max y_min y_max text rotation samples = Some d ->
  Forall (within (x_min, x_max) (y_min, y_max)) (points d).
Proof.
  intros Hx Hy. induction samples as [ | [q h] rest IH]; cbn; [congruence | ].
  destruct ((x_min <=? q) && (q <=? x_max) && ((y_min <=? h) && (h <=? y_max))) eqn:V;
    [ | exact IH].
  destruct ((x_min <? q * 0.9) && (y_min <? h * 0.9)) eqn:L; [ | exact IH].
  intros [= <-]. cbn.
  rewrite !andb_true_iff in V. rewrite !andb_true_iff in L.
  destruct V as [[V1 V2] [V3 V4]], L as [L1 L2].
  constructor; [ | constructor].
  repeat split; cbn.
  - apply ltb_leb, L1.
  - apply leb_trans with q; [ | exact V2].
    apply shrinks_by_a_tenth, leb_trans with x_min; assumption.
  - apply ltb_leb, L2.
  - apply leb_trans with h; [ | exact V4].
    apply shrinks_by_a_tenth, leb_trans with y_min; assumption.
Qed.

Lemma label_from_left_label x_min x_max y_min y_max text rotation samples d :
  TurbineSelectionChart.label_from_left x_min x_max y_min y_max text rotation samples = Some d ->
  is_curve d = false.
Proof.
  induction samples as [ | [q h] rest IH]; cbn; [congruence | ].
  repeat match goal with |- context [if ?c then _ else _] => destruct c end;
    try exact IH.
  intros [= <-]. reflexivity.
Qed.

Lemma label_from_right_label x_min x_max y_min y_max text rotation samples d :
  TurbineSelectionChart.label_from_right x_min x_max y_min y_max text rotation samples = Some d ->
  is_curve d = false.
Proof.
  induction samples as [ | [q h] rest IH]; cbn; [congruence | ].
  repeat match goal with |- context [if ?c then _ else _] => destruct c end;
    try exact IH.
  intros [= <-]. reflexivity.
Qed.

Lemma place_label_label x_min x_max y_min y_max P vQ vH Q H d :
  TurbineSelectionChart.place_label x_min x_max y_min y_max P vQ vH Q H = Some d -> is_curve d = false.
Proof.
  unfold TurbineSelectionChart.place_label.
  match goal with |- match ?m with _ => _ end = _ -> _ => destruct m as [d1 | ] eqn:M end.
  - intros [= <-].
    repeat match type of M with
           | (if ?c then _ else _) = _ => destruct c; [ | discriminate]
           | match ?o with _ => _ end = _ => destruct o; [ | discriminate]
           end.
    injection M as <-. reflexivity.
  - destruct (TurbineSelectionChart.label_from_left _ _ _ _ _ _ _) eqn:E.
    + intros [= <-]. eapply label_from_left_label, E.
    + apply label_from_right_label.
Qed.

Lemma filter_curve_labels x_min x_max y_min y_max P vQ vH Q H :
  List.filter is_curve (option_list (TurbineSelectionChart.place_label x_min x_max y_min y_max P vQ vH Q H)) = [].
Proof.
  destruct (TurbineSelectionChart.place_label _ _ _ _ _ _ _ _ _) as [d | ] eqn:E; [ | reflexivity].
  cbn. rewrite (place_label_label _ _ _ _ _ _ _ _ _ _ E). reflexivity.
Qed.

Lemma place_label_within x_min x_max y_min y_max P vQ vH Q H d :
  (0 <=? x_min) = true -> (0 <=? y_min) = true ->
  Forall (within (x_min, x_max) (y_min, y_max)) (zip vQ vH) ->
  TurbineSelectionChart.place_label x_min x_max y_min y_max P vQ vH Q H = Some d ->
  Forall (within (x_min, x_max) (y_min, y_max)) (points d).
Proof.
  intros Hx Hy V. unfold TurbineSelectionChart.place_label.
  match goal with |- match ?m with _ => _ end = _ -> _ => destruct m as [d1 | ] eqn:M end.
  - intros [= <-].
    destruct (0 <? length vQ)%nat; [ | discriminate].
    destruct (vQ !! _) as [label_Q | ] eqn:EQ; [ | discriminate].
    destruct (vH !! _) as [label_H | ] eqn:EH; [ | discriminate].
    match type of M with (if ?c then _ else _) = _ => destruct c end; [ | discriminate].
    injection M as <-. cbn. constructor; [ | constructor].
    apply (proj1 (Forall_lookup _ _) V (length vQ / 2)%nat).
    apply lookup_zip_with_Some. eauto.
  - destruct (TurbineSelectionChart.label_from_left _ _ _ _ _ _ _) eqn:E.
    + intros [= <-]. eapply label_from_left_within; eassumption.
    + apply label_from_right_within; assumption.
Qed.

Lemma visible_within (x_min x_max y_min y_max : float) (Q H : list float) :
  let g := fun h q => (y_min <=? h) && (h <=? y_max) && (x_min <=? q) && (q <=? x_max) in
  length (mask Q (zip_with g H Q)) = length (mask H (zip_with g H Q)) /\
  Forall (within (x_min, x_max) (y_min, y_max))
         (zip (mask Q (zip_with g H Q)) (mask H (zip_with g H Q))).
Proof.
  intros g. destruct (mask_in_view g Q H) as [V L]. split; [exact L | ].
  eapply Forall_impl; [exact V | ]. intros p. apply in_view_within.
Qed.

(** X10: every curve of either file has one head per flow rate, and all its
    points lie within the limits of the axes. *)
Theorem curves_within_limits (xlim ylim : float * float) (Q_values : list float) :
  Forall (well_drawn xlim ylim) (TurbineChartGUI.plot_power_curves xlim ylim Q_values) /\
  Forall (well_drawn xlim ylim) (TurbineSelectionChart.plot_power_curves xlim ylim Q_values).
Proof.
  destruct xlim as [x_min x_max], ylim as [y_min y_max].
  unfold TurbineChartGUI.plot_power_curves, TurbineSelectionChart.plot_power_curves.
  split; apply List.Forall_flat_map, Forall_forall; intros P _; cbv beta zeta.
  - match goal with |- context [np_any_bool ?m] => destruct (np_any_bool m) end;
      constructor; [ | constructor].
    apply visible_within.
  - rewrite zip_with_fmap_l.
    match goal with |- context [np_any ?m] => destruct (np_any m) end; [ | constructor].
    constructor; [apply visible_within | ].
    destruct (TurbineSelectionChart.place_label _ _ _ _ _ _ _ _ _) as [d | ] eqn:E; [ | constructor].
    constructor; [ | constructor].
    apply place_label_label in E. destruct d; [discriminate | exact I].
Qed.

(** X11: with lower limits that are not negative, each label of the script
    lies within the limits of the axes, whichever of the three strategies
    placed it: the moved label is checked against one limit only, and the
    other follows. *)
Theorem labels_within_limits (xlim ylim : float * float) (Q_values : list float) :
  (0 <=? xlim.1) = true -> (0 <=? ylim.1) = true ->
  Forall (fun d => is_curve d = false -> Forall (within xlim ylim) (points d))
         (TurbineSelectionChart.plot_power_curves xlim ylim Q_values).
Proof.
  destruct xlim as [x_min x_max], ylim as [y_min y_max]. cbn [fst snd]. intros Hx Hy.
  unfold TurbineSelectionChart.plot_power_curves.
  apply List.Forall_flat_map, Forall_forall; intros P _; cbv beta zeta.
  rewrite zip_with_fmap_l.
  match goal with |- context [np_any ?m] => destruct (np_any m) end; [ | constructor].
  constructor; [cbn; congruence | ].
  destruct (TurbineSelectionChart.place_label _ _ _ _ _ _ _ _ _) as [d | ] eqn:E; [ | constructor].
  constructor; [ | constructor]. intros _.
  eapply place_label_within; [exact Hx | exact Hy | | exact E].
  apply visible_within.
Qed.

Lemma labels_within_limits_witness :
  Forall (fun d => is_curve d = false -> Forall (within (0.1, 100) (3, 1000)) (points d))
         (TurbineSelectionChart.plot_power_curves (0.1, 100) (3, 1000) [0.05; 0.1; 1; 10; 100; 200]).
Proof.
  apply (labels_within_limits (0.1, 100) (3, 1000)); reflexivity.
Defined.

(** X12: whatever the limits and the samples, the curves of the script are
    among the curves of the window, in the same order: the script draws no
    curve that the window does not draw. *)
Theorem script_curves_among_gui (xlim ylim : float * float) (Q_values : list float) :
  List.filter is_curve (TurbineSelectionChart.plot_power_curves xlim ylim Q_values)
    `sublist_of` TurbineChartGUI.plot_power_curves xlim ylim Q_values.
Proof.
  destruct xlim as [x_min x_max], ylim as [y_min y_max].
  unfold TurbineChartGUI.plot_power_curves, TurbineSelectionChart.plot_power_curves.
  rewrite filter_flat_map. apply flat_map_sublist. intros P. cbv beta zeta.
  rewrite zip_with_fmap_l.
  match goal with |- context [np_any (mask ?Q ?m)] =>
    pose proof (np_any_mask Q m) as A; destruct (np_any (mask Q m))
  end; [ | apply sublist_nil_l].
  rewrite A by reflexivity. cbn [List.filter is_curve].
  rewrite filter_curve_labels. reflexivity.
Qed.

(** X13: on axes whose lower flow limit is positive, the two files draw the
    same curves: the test of the script on the visible flow rates
    ([np.any(visible_Q)], true when one of them is not zero) then decides as
    the test of the window on the mask. *)
Theorem power_curves_agree (xlim ylim : float * float) (Q_values : list float) :
  (0 <? xlim.1) = true ->
  List.filter is_curve (TurbineSelectionChart.plot_power_curves xlim ylim Q_values)
  = TurbineChartGUI.plot_power_curves xlim ylim Q_values.
Proof.
  destruct xlim as [x_min x_max], ylim as [y_min y_max]. cbn [fst]. intros Hx.
  unfold TurbineChartGUI.plot_power_curves, TurbineSelectionChart.plot_power_curves.
  rewrite filter_flat_map. apply flat_map_ext_all. intros P. cbv beta zeta.
  rewrite zip_with_fmap_l.
  rewrite np_any_bool_mask.
  2:{ intros h q. rewrite !andb_true_iff. intros [[_ G] _].
      exact (positive_not_zero _ _ Hx G). }
  match goal with |- context [np_any_bool ?m] => destruct (np_any_bool m) end;
    [ | reflexivity].
  cbn [List.filter is_curve]. rewrite filter_curve_labels. reflexivity.
Qed.

Lemma power_curves_agree_witness :
  List.filter is_curve
    (TurbineSelectionChart.plot_power_curves (0.1, 100) (3, 1000) [0.05; 0.1; 1; 10; 100; 200])
  = TurbineChartGUI.plot_power_curves (0.1, 100) (3, 1000) [0.05; 0.1; 1; 10; 100; 200].
Proof.
  apply (power_curves_agree (0.1, 100) (3, 1000)); reflexivity.
Defined.

End PowerCurves.
